(** * TransformersSimilarityRanker

    A shallow embedding of
    [haystack/components/rankers/transformers_similarity.py] and the
    properties of its configuration, serialization and ranking pipeline.

    Conventions of the embedding.
    - Python [int] is [Z]; Python [float] is [Q] (finite values only: no
      NaN, no infinities, no rounding).
    - Python objects that are mutated and shared live in a store and are
      named by a location: [Document] objects in a [gmap loc Document],
      the [model_kwargs] dictionaries in a [gmap loc (gmap string Any)].
    - Everything the module imports from elsewhere (torch, transformers,
      the device helpers of [haystack.utils]) is a [Variable] of the
      section below. *)

From Stdlib Require Import ZArith QArith String List Bool Lia DecimalString.
From stdpp Require Import base option list gmap strings sorting.

#[local] Set Warnings "-register-all".
#[local] Open Scope string_scope.
#[local] Open Scope list_scope.

(** ** Python values *)

(** The values that occur in [model_kwargs]: [Dict[str, Any]] restricted
    to what the loader options hold (flags, numbers, names, torch dtypes
    and nested dictionaries such as a per-layer device map). *)
Inductive Any :=
| PNone
| PBool (b : bool)
| PInt (z : Z)
| PStr (s : string)
| PDtype (name : string)
| PDict (m : gmap string Any).

(** Python truthiness, as used by [if x] and [x or y]. *)
Definition truthy (v : Any) : bool :=
  match v with
  | PNone => false
  | PBool b => b
  | PInt z => negb (z =? 0)%Z
  | PStr s => negb (String.eqb s "")
  | PDtype _ => true
  | PDict m => match map_to_list m with [] => false | _ => true end
  end.

(** The values stored under a key of [Document.meta]: the scalars. *)
Inductive MetaValue :=
| MNone
| MBool (b : bool)
| MInt (z : Z)
| MStr (s : string).

Definition meta_truthy (v : MetaValue) : bool :=
  match v with
  | MNone => false
  | MBool b => b
  | MInt z => negb (z =? 0)%Z
  | MStr s => negb (String.eqb s "")
  end.

(** [str(v)]. *)
Definition py_str (v : MetaValue) : string :=
  match v with
  | MNone => "None"
  | MBool true => "True"
  | MBool false => "False"
  | MInt z => NilZero.string_of_int (Z.to_int z)
  | MStr s => s
  end.

(** Truthiness of a float and of an int. *)
Definition float_truthy (q : Q) : bool := negb (Qeq_bool q 0).
Definition int_truthy (z : Z) : bool := negb (z =? 0)%Z.

(** [x or y] when [x] is [Optional[T]] and [y] is a [T]. *)
Definition py_or {A : Type} (t : A → bool) (x : option A) (y : A) : A :=
  match x with
  | Some v => if t v then v else y
  | None => y
  end.

(** [x or y] when both are [Optional[T]]. *)
Definition py_or_opt {A : Type} (t : A → bool) (x y : option A) : option A :=
  match x with
  | Some v => if t v then Some v else y
  | None => y
  end.

(** [x is None]. *)
Definition is_none {A : Type} (x : option A) : bool :=
  match x with
  | None => true
  | Some _ => false
  end.

(** [token: Union[bool, str, None]]. *)
Inductive Token :=
| TokenNone
| TokenBool (b : bool)
| TokenStr (s : string).

(** ** Documents *)

Record Document := mkDocument {
  content : option string;
  meta : gmap string MetaValue;
  score : option Q
}.

Definition loc := nat.

Definition set_score (s : Q) (d : Document) : Document :=
  {| content := content d; meta := meta d; score := Some s |}.

(** The score field of the object a reference points to. *)
Definition score_of (σ : gmap loc Document) (l : loc) : option Q :=
  σ !! l ≫= score.

(** ** Exceptions *)

Inductive ValueErrorKind :=
| device_and_device_map
| calibration_factor_missing
| top_k_not_positive.

Inductive exn :=
| ValueError (k : ValueErrorKind)
| ComponentError
| DeserializationError
| TypeError
| IndexError.

Inductive result (A : Type) :=
| Ok (a : A)
| Raise (e : exn).
Arguments Ok {A} a.
Arguments Raise {A} e.

Definition newline : string := String (Ascii.ascii_of_nat 10) EmptyString.

(** The fully qualified class name written under ["type"]. *)
Definition qualified_class_name : string :=
  "haystack.components.rankers.transformers_similarity.TransformersSimilarityRanker".

(** ** The component *)

Section TransformersSimilarityRanker.

(** *** What the module imports *)

(** [haystack.utils.ComponentDevice] with the operations used here. *)
Variable ComponentDevice : Type.
(** [ComponentDevice.resolve_device(device)]. *)
Variable resolve_device : option ComponentDevice → ComponentDevice.
(** [ComponentDevice.from_multiple(DeviceMap.from_hf(device_map))], where it
    returns: on a value it cannot read as a device map the call raises,
    and the constructor lets that exception through. *)
Variable from_multiple_from_hf : Any → ComponentDevice.
(** [device.to_hf()], [device.to_dict()], [ComponentDevice.from_dict]. *)
Variable to_hf : ComponentDevice → Any.
Variable device_to_dict : ComponentDevice → Any.
Variable device_from_dict : Any → ComponentDevice.

(** The tokenizer output handed to the model. *)
Variable Features : Type.
(** [AutoModelForSequenceClassification.from_pretrained(...)], read as
    the map from a batch of features to [logits.squeeze(dim=1)]. *)
Variable AutoModel_from_pretrained :
  string → Token → gmap string Any → Features → list Q.
(** [AutoTokenizer.from_pretrained(...)], applied to the pairs with
    [padding=True, truncation=True, return_tensors="pt"]. *)
Variable AutoTokenizer_from_pretrained :
  string → Token → list (string * string) → Features.

(** [torch.sigmoid] on one entry. *)
Variable sigmoid : Q → Q.
(** The indices returned by [torch.sort(scores, descending=True)]. *)
Variable torch_sort_descending : list Q → list nat.

(** *** The instance *)

Record Ranker := mkRanker {
  model_name_or_path : string;
  model : option (Features → list Q);
  tokenizer : option (list (string * string) → Features);
  top_k : Z;
  token : Token;
  meta_fields_to_embed : list string;
  embedding_separator : string;
  scale_score : bool;
  calibration_factor : option Q;
  score_threshold : option Q;
  model_kwargs : loc;
  device : ComponentDevice
}.

(** The dictionary a [model_kwargs] reference points to. *)
Definition kwargs_at (h : gmap loc (gmap string Any)) (l : loc)
  : gmap string Any :=
  default ∅ (h !! l).

(** [d.get(key)] followed by a truth test. *)
Definition get_truthy (d : gmap string Any) (key : string) : bool :=
  match d !! key with
  | Some v => truthy v
  | None => false
  end.

(** [model_kwargs or {}]: the caller's dictionary when it is given and
    not empty, a new empty dictionary otherwise. *)
Definition kwargs_or_empty (model_kwargs' : option loc)
    (h : gmap loc (gmap string Any)) : loc * gmap loc (gmap string Any) :=
  match model_kwargs' with
  | Some l =>
      if truthy (PDict (kwargs_at h l)) then (l, h)
      else let l' := fresh (dom h) in (l', <[l' := ∅]> h)
  | None => let l' := fresh (dom h) in (l', <[l' := ∅]> h)
  end.

(** [__init__]. The arguments are the keyword arguments of the
    constructor; [h] is the store of dictionaries. *)
Definition __init__
    (model' : string) (device' : option ComponentDevice) (token' : Token)
    (top_k' : Z) (meta_fields_to_embed' : option (list string))
    (embedding_separator' : string) (scale_score' : bool)
    (calibration_factor' score_threshold' : option Q)
    (model_kwargs' : option loc)
    (h : gmap loc (gmap string Any))
  : result Ranker * gmap loc (gmap string Any) :=
  let '(kw, h1) := kwargs_or_empty model_kwargs' h in
  if get_truthy (kwargs_at h1 kw) "device_map" && negb (is_none device')
  then (Raise (ValueError device_and_device_map), h1)
  else
    let component_device :=
      if get_truthy (kwargs_at h1 kw) "device_map"
         && is_none device'
      then from_multiple_from_hf
             (default PNone (kwargs_at h1 kw !! "device_map"))
      else resolve_device device' in
    if scale_score' && is_none calibration_factor'
    then (Raise (ValueError calibration_factor_missing), h1)
    else if (top_k' <=? 0)%Z
    then (Raise (ValueError top_k_not_positive), h1)
    else
      (Ok {| model_name_or_path := model';
             model := None;
             tokenizer := None;
             top_k := top_k';
             token := token';
             meta_fields_to_embed := default [] meta_fields_to_embed';
             embedding_separator := embedding_separator';
             scale_score := scale_score';
             calibration_factor := calibration_factor';
             score_threshold := score_threshold';
             model_kwargs := kw;
             device := component_device |}, h1).

(** [warm_up]: the first call writes the placement into the stored
    dictionary and loads model and tokenizer; later calls do nothing. *)
Definition warm_up (self : Ranker) (h : gmap loc (gmap string Any))
  : Ranker * gmap loc (gmap string Any) :=
  match model self with
  | None =>
      let h1 :=
        <[model_kwargs self :=
            <["device_map" := to_hf (device self)]>
              (kwargs_at h (model_kwargs self))]> h in
      ({| model_name_or_path := model_name_or_path self;
          model := Some (AutoModel_from_pretrained
                           (model_name_or_path self) (token self)
                           (kwargs_at h1 (model_kwargs self)));
          tokenizer := Some (AutoTokenizer_from_pretrained
                               (model_name_or_path self) (token self));
          top_k := top_k self;
          token := token self;
          meta_fields_to_embed := meta_fields_to_embed self;
          embedding_separator := embedding_separator self;
          scale_score := scale_score self;
          calibration_factor := calibration_factor self;
          score_threshold := score_threshold self;
          model_kwargs := model_kwargs self;
          device := device self |}, h1)
  | Some _ => (self, h)
  end.

(** *** Serialization *)

(** Modelled from the spec: [serialize_hf_model_kwargs] of
    [haystack.utils.hf], which is not among the sources. Loader options
    holding a dtype marker are replaced, in place and recursively, by
    their canonical string form; every other entry is kept. *)
Fixpoint serialize_hf_value (v : Any) : Any :=
  match v with
  | PDtype name => PStr ("torch." +:+ name)
  | PDict m => PDict (serialize_hf_value <$> m)
  | _ => v
  end.

Definition serialize_hf_model_kwargs (d : gmap string Any) : gmap string Any :=
  serialize_hf_value <$> d.

(** ["torch.<name>"] to [<name>]. *)
Definition dtype_name (s : string) : option string :=
  if String.prefix "torch." s
  then Some (String.substring 6 (String.length s - 6) s)
  else None.

(** Modelled from the spec: [deserialize_hf_model_kwargs] of
    [haystack.utils.hf], which is not among the sources. The canonical
    string form of a dtype marker is decoded back to the marker. *)
Fixpoint deserialize_hf_value (v : Any) : Any :=
  match v with
  | PStr s => match dtype_name s with Some n => PDtype n | None => v end
  | PDict m => PDict (deserialize_hf_value <$> m)
  | _ => v
  end.

Definition deserialize_hf_model_kwargs (d : gmap string Any) : gmap string Any :=
  deserialize_hf_value <$> d.

(** The value under ["init_parameters"]. The entry [model_kwargs] is the
    very dictionary the instance holds, so it is a reference. *)
Record InitParameters := mkInitParameters {
  ip_device : Any;
  ip_model : string;
  ip_token : Token;
  ip_top_k : Z;
  ip_meta_fields_to_embed : list string;
  ip_embedding_separator : string;
  ip_scale_score : bool;
  ip_calibration_factor : option Q;
  ip_score_threshold : option Q;
  ip_model_kwargs : loc
}.

Record Export := mkExport {
  type : string;
  init_parameters : InitParameters
}.

(** [to_dict]. [default_to_dict] wraps the keyword arguments it is given;
    [serialize_hf_model_kwargs] then rewrites the dictionary found under
    [model_kwargs], which is the instance's own. *)
Definition to_dict (self : Ranker) (h : gmap loc (gmap string Any))
  : Export * gmap loc (gmap string Any) :=
  let serialization_dict :=
    {| type := qualified_class_name;
       init_parameters :=
         {| ip_device := device_to_dict (device self);
            ip_model := model_name_or_path self;
            ip_token := match token self with
                        | TokenStr _ => TokenNone
                        | t => t
                        end;
            ip_top_k := top_k self;
            ip_meta_fields_to_embed := meta_fields_to_embed self;
            ip_embedding_separator := embedding_separator self;
            ip_scale_score := scale_score self;
            ip_calibration_factor := calibration_factor self;
            ip_score_threshold := score_threshold self;
            ip_model_kwargs := model_kwargs self |} |} in
  (serialization_dict,
   <[model_kwargs self :=
       serialize_hf_model_kwargs (kwargs_at h (model_kwargs self))]> h).

(** [from_dict]. Modelled from the spec: [default_from_dict] of
    [haystack.core], which is not among the sources, checks the ["type"]
    entry and calls the constructor with the ["init_parameters"]. *)
Definition from_dict (data : Export) (h : gmap loc (gmap string Any))
  : result Ranker * gmap loc (gmap string Any) :=
  let init_params := init_parameters data in
  let device' := device_from_dict (ip_device init_params) in
  let h1 :=
    <[ip_model_kwargs init_params :=
        deserialize_hf_model_kwargs
          (kwargs_at h (ip_model_kwargs init_params))]> h in
  if negb (String.eqb (type data) qualified_class_name)
  then (Raise DeserializationError, h1)
  else
    __init__ (ip_model init_params) (Some device') (ip_token init_params)
      (ip_top_k init_params) (Some (ip_meta_fields_to_embed init_params))
      (ip_embedding_separator init_params) (ip_scale_score init_params)
      (ip_calibration_factor init_params) (ip_score_threshold init_params)
      (Some (ip_model_kwargs init_params)) h1.

(** What an export reads as, by value, in a given store. *)
Definition export_value (e : Export) (h : gmap loc (gmap string Any))
  : string * (Any * string * Token * Z * list string * string * bool
              * option Q * option Q * gmap string Any) :=
  let p := init_parameters e in
  (type e,
   (ip_device p, ip_model p, ip_token p, ip_top_k p,
    ip_meta_fields_to_embed p, ip_embedding_separator p, ip_scale_score p,
    ip_calibration_factor p, ip_score_threshold p,
    kwargs_at h (ip_model_kwargs p))).

(** *** Ranking *)

(** The effective parameters of a call: lines
    [top_k = top_k or self.top_k] and the three that follow. *)
Definition effective_top_k (self : Ranker) (top_k' : option Z) : Z :=
  py_or int_truthy top_k' (top_k self).

Definition effective_scale_score (self : Ranker) (scale_score' : option bool)
  : bool :=
  py_or id scale_score' (scale_score self).

Definition effective_calibration_factor (self : Ranker)
    (calibration_factor' : option Q) : option Q :=
  py_or_opt float_truthy calibration_factor' (calibration_factor self).

Definition effective_score_threshold (self : Ranker)
    (score_threshold' : option Q) : option Q :=
  py_or_opt float_truthy score_threshold' (score_threshold self).

(** The object behind a reference held by the caller's list. *)
Definition deref (σ : gmap loc Document) (l : loc) : Document :=
  default {| content := None; meta := ∅; score := None |} (σ !! l).

(** [str(doc.meta[key]) for key in self.meta_fields_to_embed
     if key in doc.meta and doc.meta[key]]. *)
Definition meta_values_to_embed (self : Ranker) (doc : Document)
  : list string :=
  omap (λ key, match meta doc !! key with
               | Some v => if meta_truthy v then Some (py_str v) else None
               | None => None
               end)
       (meta_fields_to_embed self).

(** [self.embedding_separator.join(meta_values_to_embed
                                    + [doc.content or ""])]. *)
Definition text_to_embed (self : Ranker) (doc : Document) : string :=
  String.concat (embedding_separator self)
    (meta_values_to_embed self doc
     ++ [py_or (λ s, negb (String.eqb s "")) (content doc) ""]).

Definition query_doc_pairs (self : Ranker) (query : string)
    (documents : list loc) (σ : gmap loc Document) : list (string * string) :=
  map (λ l, (query, text_to_embed self (deref σ l))) documents.

(** [torch.sigmoid(similarity_scores * calibration_factor)] when scaling
    is on. The validation that precedes it excludes a missing factor. *)
Definition calibrate (scale_score' : bool) (calibration_factor' : option Q)
    (logits : list Q) : list Q :=
  if scale_score'
  then match calibration_factor' with
       | Some c => map (λ x, sigmoid (x * c)%Q) logits
       | None => logits
       end
  else logits.

(** The loop over [sorted_indices]: write the score on the object, then
    append the reference. An index outside either list raises. *)
Fixpoint rank_loop (documents : list loc) (similarity_scores : list Q)
    (sorted_indices : list nat) (ranked_docs : list loc)
    (σ : gmap loc Document) : result (list loc) * gmap loc Document :=
  match sorted_indices with
  | [] => (Ok ranked_docs, σ)
  | i :: rest =>
      match similarity_scores !! i, documents !! i with
      | Some s, Some l =>
          rank_loop documents similarity_scores rest (ranked_docs ++ [l])
            (alter (set_score s) l σ)
      | _, _ => (Raise IndexError, σ)
      end
  end.

(** [doc.score >= score_threshold]. *)
Definition score_at_least (σ : gmap loc Document) (t : Q) (l : loc) : bool :=
  match score_of σ l with
  | Some s => Qle_bool t s
  | None => false
  end.

(** [run]. [documents] is the caller's list of references, [σ] the
    store holding the objects; the result is the value under
    ["documents"] or the exception, with the store as the call leaves
    it. *)
Definition run (self : Ranker) (query : string) (documents : list loc)
    (top_k' : option Z) (scale_score' : option bool)
    (calibration_factor' score_threshold' : option Q)
    (σ : gmap loc Document) : result (list loc) * gmap loc Document :=
  match documents with
  | [] => (Ok [], σ)
  | _ :: _ =>
      let top_k' := effective_top_k self top_k' in
      let scale_score' := effective_scale_score self scale_score' in
      let calibration_factor' :=
        effective_calibration_factor self calibration_factor' in
      let score_threshold' :=
        effective_score_threshold self score_threshold' in
      if (top_k' <=? 0)%Z
      then (Raise (ValueError top_k_not_positive), σ)
      else if scale_score' && is_none calibration_factor'
      then (Raise (ValueError calibration_factor_missing), σ)
      else
        match model self with
        | None => (Raise ComponentError, σ)
        | Some forward =>
            match tokenizer self with
            | None => (Raise TypeError, σ)
            | Some tokenize =>
                let features :=
                  tokenize (query_doc_pairs self query documents σ) in
                let similarity_scores :=
                  calibrate scale_score' calibration_factor'
                    (forward features) in
                let sorted_indices :=
                  torch_sort_descending similarity_scores in
                match rank_loop documents similarity_scores
                        sorted_indices [] σ with
                | (Raise e, σ1) => (Raise e, σ1)
                | (Ok ranked_docs, σ1) =>
                    let ranked_docs :=
                      match score_threshold' with
                      | Some t =>
                          List.filter (score_at_least σ1 t) ranked_docs
                      | None => ranked_docs
                      end in
                    (Ok (take (Z.to_nat top_k') ranked_docs), σ1)
                end
            end
        end
  end.

(** The scores a call sorts and writes: the logits of the batch, scaled
    when the effective [scale_score] says so. *)
Definition scores_of_call (self : Ranker)
    (forward : Features → list Q)
    (tokenize : list (string * string) → Features)
    (query : string) (documents : list loc)
    (scale_score' : option bool) (calibration_factor' : option Q)
    (σ : gmap loc Document) : list Q :=
  calibrate (effective_scale_score self scale_score')
    (effective_calibration_factor self calibration_factor')
    (forward (tokenize (query_doc_pairs self query documents σ))).

(** What [torch.sort(scores, descending=True)] promises about the
    indices it returns: they are the positions of [scores], each once,
    and the values read along them do not increase. Nothing is promised
    about the order of equal values ([stable] is left at its default). *)
Definition values_along (scores : list Q) (idxs : list nat) : list Q :=
  omap (λ i, scores !! i) idxs.

Definition descending (a b : Q) : Prop := Qle_bool b a = true.

Definition argsort_descending (scores : list Q) (idxs : list nat) : Prop :=
  idxs ≡ₚ seq 0 (length scores)
  ∧ Sorted descending (values_along scores idxs).

(** [a.score >= b.score] for two references read in a store. *)
Definition score_ge (σ : gmap loc Document) (a b : loc) : Prop :=
  ∃ sa sb, score_of σ a = Some sa ∧ score_of σ b = Some sb
           ∧ Qle_bool sb sa = true.

(** *** Facts about the loop *)

Lemma rank_loop_frame documents similarity_scores sorted_indices acc σ r σ' :
  rank_loop documents similarity_scores sorted_indices acc σ = (r, σ') →
  ∀ l, content <$> σ' !! l = content <$> σ !! l
       ∧ meta <$> σ' !! l = meta <$> σ !! l.
Proof.
  revert acc σ. induction sorted_indices as [|i rest IH]; intros acc σ H l.
  - simpl in H. by inversion H.
  - simpl in H.
    destruct (similarity_scores !! i) as [s|]; [|by inversion H].
    destruct (documents !! i) as [l0|]; [|by inversion H].
    destruct (IH _ _ H l) as [Hc Hm]. rewrite Hc, Hm.
    rewrite lookup_alter. case_decide; [subst|done].
    by destruct (σ !! l).
Qed.

Lemma rank_loop_dom documents similarity_scores sorted_indices acc σ r σ' :
  rank_loop documents similarity_scores sorted_indices acc σ = (r, σ') →
  dom σ' = dom σ.
Proof.
  intros H. apply set_eq. intros l. rewrite !elem_of_dom.
  destruct (rank_loop_frame _ _ _ _ _ _ _ H l) as [Hc _].
  destruct (σ' !! l), (σ !! l); simpl in Hc; try done; split; eauto;
    intros [? ?]; done.
Qed.

(** A successful loop has read every index in both lists and returns the
    references in the order of the indices. *)
Lemma rank_loop_ok documents similarity_scores sorted_indices acc σ out σ' :
  rank_loop documents similarity_scores sorted_indices acc σ = (Ok out, σ') →
  ∃ ls, Forall2 (λ i l, documents !! i = Some l) sorted_indices ls
        ∧ Forall (λ i, is_Some (similarity_scores !! i)) sorted_indices
        ∧ out = acc ++ ls.
Proof.
  revert acc σ. induction sorted_indices as [|i rest IH]; intros acc σ H.
  - simpl in H. inversion H; subst. exists []. rewrite app_nil_r. eauto.
  - simpl in H.
    destruct (similarity_scores !! i) as [s|] eqn:Hs; [|by inversion H].
    destruct (documents !! i) as [l0|] eqn:Hl; [|by inversion H].
    destruct (IH _ _ H) as (ls & H2 & HF & ->).
    exists (l0 :: ls). rewrite <- app_assoc. split_and!; eauto.
Qed.

(** Indices in range make the loop succeed. *)
Lemma rank_loop_total documents similarity_scores sorted_indices acc σ :
  Forall (λ i, i < length similarity_scores ∧ i < length documents)
         sorted_indices →
  ∃ out σ',
    rank_loop documents similarity_scores sorted_indices acc σ = (Ok out, σ').
Proof.
  revert acc σ. induction sorted_indices as [|i rest IH]; intros acc σ HF.
  - simpl. eauto.
  - inversion HF as [|? ? [Hs Hd] HF']; subst. simpl.
    destruct (lookup_lt_is_Some_2 _ _ Hs) as [s ->].
    destruct (lookup_lt_is_Some_2 _ _ Hd) as [l ->].
    apply IH, HF'.
Qed.

(** An object no index of the loop points to is left as it was. *)
Lemma rank_loop_untouched documents similarity_scores sorted_indices acc σ r σ' l :
  rank_loop documents similarity_scores sorted_indices acc σ = (r, σ') →
  (∀ i, i ∈ sorted_indices → documents !! i ≠ Some l) →
  σ' !! l = σ !! l.
Proof.
  revert acc σ. induction sorted_indices as [|i rest IH]; intros acc σ H Hn.
  - simpl in H. by inversion H.
  - simpl in H.
    destruct (similarity_scores !! i) as [s|]; [|by inversion H].
    destruct (documents !! i) as [l0|] eqn:Hl; [|by inversion H].
    rewrite (IH _ _ H).
    + rewrite lookup_alter_ne; [done|]. intros ->.
      apply (Hn i); [left|done].
    + intros j Hj. apply Hn. by right.
Qed.

(** An object some index points to carries, at the end, the score of one
    of the positions at which it occurs. *)
Lemma rank_loop_scored documents similarity_scores sorted_indices acc σ out σ' l :
  rank_loop documents similarity_scores sorted_indices acc σ = (Ok out, σ') →
  is_Some (σ !! l) →
  (∃ i, i ∈ sorted_indices ∧ documents !! i = Some l) →
  ∃ j s, j ∈ sorted_indices ∧ documents !! j = Some l
         ∧ similarity_scores !! j = Some s ∧ score_of σ' l = Some s.
Proof.
  revert acc σ. induction sorted_indices as [|i rest IH]; intros acc σ H Hin Hex.
  - destruct Hex as (i & Hi & _). by apply elem_of_nil in Hi.
  - simpl in H.
    destruct (similarity_scores !! i) as [s|] eqn:Hs; [|by inversion H].
    destruct (documents !! i) as [l0|] eqn:Hl; [|by inversion H].
    destruct (decide (Exists (λ j, documents !! j = Some l) rest)) as [He|Hne].
    + apply Exists_exists in He as (j & Hj & Hjl).
      destruct (IH _ _ H) as (j' & s' & Hj' & ? & ? & ?).
      * rewrite lookup_alter. case_decide; [subst|done].
        destruct Hin as [d ->]. simpl. eauto.
      * eauto.
      * exists j', s'. split_and!; try done. by right.
    + destruct Hex as (j & Hj & Hjl).
      apply elem_of_cons in Hj as [->|Hj].
      * rewrite Hl in Hjl. inversion Hjl; subst l0.
        exists i, s. split_and!; try done; [left|].
        unfold score_of.
        rewrite (rank_loop_untouched _ _ _ _ _ _ _ l H).
        -- rewrite lookup_alter_eq. destruct Hin as [d ->]. done.
        -- intros k Hk Hkl. apply Hne, Exists_exists. eauto.
      * exfalso. apply Hne, Exists_exists. eauto.
Qed.

(** *** Facts about lists *)

Lemma StronglySorted_transfer {A B : Type} (R1 : relation A)
    (R2 : relation B) (P : A → B → Prop) (l1 : list A) (l2 : list B) :
  (∀ a b x y, P a x → P b y → R1 a b → R2 x y) →
  Forall2 P l1 l2 → StronglySorted R1 l1 → StronglySorted R2 l2.
Proof.
  intros HR HF. induction HF as [|a x l1 l2 Hax HF IH]; intros HS.
  - constructor.
  - apply StronglySorted_inv in HS as [HS Hall]. constructor; [by apply IH|].
    clear IH HS. induction HF as [|b y l1 l2 Hby HF IH]; [constructor|].
    inversion Hall; subst. constructor; eauto.
Qed.



Lemma list_filter_Permutation {A : Type} (f : A → bool) (l1 l2 : list A) :
  l1 ≡ₚ l2 → List.filter f l1 ≡ₚ List.filter f l2.
Proof.
  induction 1 as [|x l1 l2 _ IH|x y l|l1 l2 l3 _ IH1 _ IH2]; simpl.
  - done.
  - destruct (f x); [by constructor|done].
  - destruct (f x), (f y); try done. constructor.
  - by etrans.
Qed.

Lemma list_filter_elem_of {A : Type} (f : A → bool) (l : list A) (x : A) :
  x ∈ List.filter f l ↔ x ∈ l ∧ f x = true.
Proof. rewrite !list_elem_of_In. apply filter_In. Qed.

(** Reading a list along all its positions gives the list back. *)
Lemma read_along_seq {A : Type} (l ls : list A) :
  Forall2 (λ i x, l !! i = Some x) (seq 0 (length l)) ls → ls = l.
Proof.
  intros HF. apply list_eq. intros i.
  destruct (decide (i < length l)) as [Hi|Hi].
  - destruct (Forall2_lookup_l _ _ _ i i HF) as (x & Hx & Hlx).
    { apply lookup_seq. lia. }
    by rewrite Hx, Hlx.
  - rewrite (lookup_ge_None_2 l) by lia.
    apply lookup_ge_None_2.
    rewrite <- (Forall2_length _ _ _ HF), length_seq. lia.
Qed.

Lemma read_along_omap {A : Type} (l ls : list A) (idxs : list nat) :
  Forall2 (λ i x, l !! i = Some x) idxs ls → ls = omap (λ i, l !! i) idxs.
Proof.
  induction 1 as [|i x js ks Hix _ IH]; simpl; [done|]. by rewrite Hix, IH.
Qed.

Lemma omap_read_along {A : Type} (l : list A) (idxs : list nat) :
  Forall (λ i, i < length l) idxs →
  Forall2 (λ i x, l !! i = Some x) idxs (omap (λ i, l !! i) idxs).
Proof.
  induction 1 as [|i js Hi _ IH]; simpl; [constructor|].
  destruct (lookup_lt_is_Some_2 _ _ Hi) as [x Hx]. rewrite Hx.
  by constructor.
Qed.

(** Reading a list along a permutation of its positions permutes it. *)
Lemma read_along_Permutation {A : Type} (l ls : list A) (idxs : list nat) :
  idxs ≡ₚ seq 0 (length l) →
  Forall2 (λ i x, l !! i = Some x) idxs ls →
  ls ≡ₚ l.
Proof.
  intros Hp HF. rewrite (read_along_omap _ _ _ HF), Hp.
  assert (omap (λ i, l !! i) (seq 0 (length l)) = l) as ->; [|done].
  apply read_along_seq, omap_read_along, Forall_forall. intros i Hi.
  apply elem_of_seq in Hi. lia.
Qed.

(** *** Facts about [run] *)

(** The list comprehension [[doc for doc in ranked_docs
    if doc.score >= score_threshold]], guarded by
    [score_threshold is not None]. *)
Definition apply_threshold (σ : gmap loc Document) (threshold : option Q)
    (ranked_docs : list loc) : list loc :=
  match threshold with
  | Some t => List.filter (score_at_least σ t) ranked_docs
  | None => ranked_docs
  end.

Lemma calibrate_length b c logits :
  length (calibrate b c logits) = length logits.
Proof.
  unfold calibrate. destruct b; [|done]. destruct c; [|done].
  apply length_map.
Qed.

Lemma apply_threshold_sublist σ t l : apply_threshold σ t l `sublist_of` l.
Proof.
  destruct t as [t|]; simpl; [|done].
  induction l as [|x l IH]; simpl; [done|].
  destruct (score_at_least σ t x); by constructor.
Qed.

(** What a successful call on a non-empty list went through. *)
Lemma run_ok_inv self query documents k' s' c' t' σ out σ' :
  documents ≠ [] →
  run self query documents k' s' c' t' σ = (Ok out, σ') →
  (0 < effective_top_k self k')%Z
  ∧ (effective_scale_score self s' = true →
     is_Some (effective_calibration_factor self c'))
  ∧ ∃ forward tokenize ranked,
      model self = Some forward ∧ tokenizer self = Some tokenize
      ∧ rank_loop documents
          (scores_of_call self forward tokenize query documents s' c' σ)
          (torch_sort_descending
             (scores_of_call self forward tokenize query documents s' c' σ))
          [] σ = (Ok ranked, σ')
      ∧ out = take (Z.to_nat (effective_top_k self k'))
                (apply_threshold σ' (effective_score_threshold self t')
                   ranked).
Proof.
  intros Hne H. unfold run in H.
  destruct documents as [|l0 documents']; [done|].
  destruct (effective_top_k self k' <=? 0)%Z eqn:Hk; [by inversion H|].
  apply Z.leb_gt in Hk.
  destruct (effective_scale_score self s'
            && is_none (effective_calibration_factor self c')) eqn:Hc;
    [by inversion H|].
  destruct (model self) as [forward|]; [|by inversion H].
  destruct (tokenizer self) as [tokenize|]; [|by inversion H].
  fold (scores_of_call self forward tokenize query (l0 :: documents') s' c' σ)
    in H.
  destruct (rank_loop _ _ _ _ _) as [[ranked|e] σ1] eqn:Hloop;
    [|by inversion H].
  inversion H; subst. split; [done|]. split.
  - intros Hs. rewrite Hs in Hc. simpl in Hc.
    destruct (effective_calibration_factor self c'); [eauto|done].
  - exists forward, tokenize, ranked. split_and!; try done.
Qed.

(** Under the contracts of the scorer and of the sort the loop writes, on
    the object at position [i], the score at position [i], as long as no
    object occurs twice in the list. *)
Lemma rank_loop_score_at documents scores idxs σ ranked σ' i l :
  rank_loop documents scores idxs [] σ = (Ok ranked, σ') →
  NoDup documents →
  (∀ l, l ∈ documents → is_Some (σ !! l)) →
  i ∈ idxs → documents !! i = Some l →
  score_of σ' l = scores !! i.
Proof.
  intros Hloop Hnd Hwf Hi Hl.
  destruct (rank_loop_scored _ _ _ _ _ _ _ l Hloop) as (j & s & _ & Hj & Hs & Hsc).
  - apply Hwf. by eapply list_elem_of_lookup_2.
  - eauto.
  - rewrite (NoDup_lookup _ _ _ _ Hnd Hl Hj). by rewrite Hs.
Qed.

#[local] Instance descending_trans : Transitive descending.
Proof.
  intros a b c Hab Hbc. unfold descending in *.
  apply Qle_bool_iff. apply Qle_bool_iff in Hab, Hbc.
  by eapply Qle_trans.
Qed.

(** The references returned by the loop are in descending order of the
    scores their objects carry. *)
Lemma ranked_strongly_sorted documents scores idxs σ ranked σ' :
  rank_loop documents scores idxs [] σ = (Ok ranked, σ') →
  NoDup documents →
  (∀ l, l ∈ documents → is_Some (σ !! l)) →
  Sorted descending (values_along scores idxs) →
  StronglySorted (score_ge σ') ranked.
Proof.
  intros Hloop Hnd Hwf Hsorted.
  destruct (rank_loop_ok _ _ _ _ _ _ _ Hloop) as (ls & HF & Hsome & ->).
  simpl.
  apply Sorted_StronglySorted in Hsorted; [|apply _].
  assert (Hgen : ∀ js ks,
             Forall2 (λ i l, documents !! i = Some l) js ks →
             Forall (λ i, is_Some (scores !! i)) js →
             (∀ i, i ∈ js → i ∈ idxs) →
             Forall2 (λ v l, score_of σ' l = Some v)
               (values_along scores js) ks).
  { intros js ks HF2. unfold values_along.
    induction HF2 as [|i l js' ks' Hil HF' IH]; intros Hs Hsub; simpl;
      [constructor|].
    inversion Hs as [|? ? [v Hv] Hs']; subst. rewrite Hv.
    constructor.
    - rewrite <- Hv. eapply rank_loop_score_at; eauto. apply Hsub. left.
    - apply IH; [done|]. intros j Hj. apply Hsub. by right. }
  assert (HF' := Hgen idxs ls HF Hsome (λ i H, H)).
  eapply StronglySorted_transfer; [|exact HF'|exact Hsorted].
  intros a b x y Hax Hby Hab. exists a, b. done.
Qed.


(** The list the loop returns, under the contract of the sort. *)
Lemma ranked_of_call documents scores idxs σ ranked σ' :
  rank_loop documents scores idxs [] σ = (Ok ranked, σ') →
  Forall2 (λ i l, documents !! i = Some l) idxs ranked.
Proof.
  intros Hloop.
  destruct (rank_loop_ok _ _ _ _ _ _ _ Hloop) as (ls & HF & _ & ->). done.
Qed.

Lemma threshold_passed σ t l ranked :
  l ∈ apply_threshold σ (Some t) ranked →
  ∃ s, score_of σ l = Some s ∧ (t <= s)%Q.
Proof.
  simpl. intros Hl. apply list_filter_elem_of in Hl as [_ Hl].
  unfold score_at_least in Hl. destruct (score_of σ l) as [s|]; [|done].
  exists s. split; [done|]. by apply Qle_bool_iff.
Qed.

Lemma apply_threshold_Permutation σ t l1 l2 :
  l1 ≡ₚ l2 → apply_threshold σ t l1 ≡ₚ apply_threshold σ t l2.
Proof. destruct t; simpl; [apply list_filter_Permutation|done]. Qed.

(** *** Properties of a successful call *)

(** C6. After a successful [run], every document of the input list carries
    a score (not [None]): the score computed at a position where that
    object occurs in the list, and at its own position when no object
    occurs twice. This holds whether or not the document is returned. The
    returned references are references of the input list, no object is
    created or removed, contents and metadata are as before, and objects
    outside the list are untouched. *)
Theorem run_scores_every_document
    self query documents k' s' c' t' σ out σ' forward tokenize :
  run self query documents k' s' c' t' σ = (Ok out, σ') →
  model self = Some forward →
  tokenizer self = Some tokenize →
  (∀ l, l ∈ documents → is_Some (σ !! l)) →
  length (forward (tokenize (query_doc_pairs self query documents σ)))
    = length documents →
  torch_sort_descending
      (scores_of_call self forward tokenize query documents s' c' σ)
    ≡ₚ seq 0 (length
                (scores_of_call self forward tokenize query documents s' c' σ)) →
  (∀ l, l ∈ documents →
     ∃ j s, documents !! j = Some l
            ∧ scores_of_call self forward tokenize query documents s' c' σ !! j
              = Some s
            ∧ score_of σ' l = Some s)
  ∧ (NoDup documents →
     ∀ i l, documents !! i = Some l →
       is_Some (score_of σ' l)
       ∧ score_of σ' l
         = scores_of_call self forward tokenize query documents s' c' σ !! i)
  ∧ (∀ l, l ∈ out → l ∈ documents)
  ∧ dom σ' = dom σ
  ∧ (∀ l, content <$> σ' !! l = content <$> σ !! l
          ∧ meta <$> σ' !! l = meta <$> σ !! l)
  ∧ (∀ l, l ∉ documents → σ' !! l = σ !! l).
Proof.
  intros Hrun Hm Ht Hwf Hlen Hperm.
  destruct (decide (documents = [])) as [->|Hne].
  { simpl in Hrun. inversion Hrun; subst.
    split_and!; try done; intros l Hl; by apply elem_of_nil in Hl. }
  destruct (run_ok_inv _ _ _ _ _ _ _ _ _ _ Hne Hrun)
    as (_ & _ & fw & tk & ranked & Hm' & Ht' & Hloop & Hout).
  rewrite Hm in Hm'. rewrite Ht in Ht'. inversion Hm'. inversion Ht'. subst fw tk.
  set (S := scores_of_call self forward tokenize query documents s' c' σ) in *.
  assert (HlenS : length S = length documents).
  { unfold S, scores_of_call. by rewrite calibrate_length. }
  assert (Hall : ∀ i, i < length documents → i ∈ torch_sort_descending S).
  { intros i Hi. rewrite Hperm. apply elem_of_seq. lia. }
  destruct (rank_loop_ok _ _ _ _ _ _ _ Hloop) as (ls & HF & _ & Hls).
  simpl in Hls. subst ls.
  split_and!.
  - intros l Hl. apply list_elem_of_lookup in Hl as [i Hi].
    destruct (rank_loop_scored _ _ _ _ _ _ _ l Hloop) as (j & s & _ & ? & ? & ?).
    + apply Hwf. by eapply list_elem_of_lookup_2.
    + exists i. split; [|done]. apply Hall. by eapply lookup_lt_Some.
    + eauto.
  - intros Hnd i l Hl.
    assert (Hsc : score_of σ' l = S !! i).
    { eapply rank_loop_score_at; eauto. apply Hall. by eapply lookup_lt_Some. }
    split; [|done]. rewrite Hsc. apply lookup_lt_is_Some.
    rewrite HlenS. by eapply lookup_lt_Some.
  - intros l Hl. subst out.
    apply elem_of_take in Hl as (i & Hl & _).
    apply list_elem_of_lookup_2 in Hl.
    apply (λ H, elem_of_sublist _ _ _ H (apply_threshold_sublist _ _ _)) in Hl.
    apply list_elem_of_lookup in Hl as [n Hn].
    destruct (Forall2_lookup_r _ _ _ _ _ HF Hn) as (i' & _ & Hi').
    by eapply list_elem_of_lookup_2.
  - by eapply rank_loop_dom.
  - by eapply rank_loop_frame.
  - intros l Hl. eapply rank_loop_untouched; [done|].
    intros i _ Hi. apply Hl. by eapply list_elem_of_lookup_2.
Qed.

(** With the threshold and the [top_k] left by the lines
    [score_threshold = score_threshold or self.score_threshold] and
    [top_k = top_k or self.top_k]: on a non-empty list a successful [run]
    returns the ranked list (the documents read along the sorted indices, a
    permutation of the input that is in descending order of score when no
    object occurs twice) without the documents whose score is below that
    threshold, when there is one, cut to its first [top_k] elements.
    Hence every returned document passes the threshold and the length of
    the result is at most [top_k] and at most the number of documents that
    pass. *)
Theorem run_threshold_top_k
    self query documents k' s' c' t' σ out σ' forward tokenize :
  documents ≠ [] →
  run self query documents k' s' c' t' σ = (Ok out, σ') →
  model self = Some forward →
  tokenizer self = Some tokenize →
  length (forward (tokenize (query_doc_pairs self query documents σ)))
    = length documents →
  argsort_descending
    (scores_of_call self forward tokenize query documents s' c' σ)
    (torch_sort_descending
       (scores_of_call self forward tokenize query documents s' c' σ)) →
  (∃ ranked,
      Forall2 (λ i l, documents !! i = Some l)
        (torch_sort_descending
           (scores_of_call self forward tokenize query documents s' c' σ))
        ranked
      ∧ ranked ≡ₚ documents
      ∧ (NoDup documents → (∀ l, l ∈ documents → is_Some (σ !! l)) →
         StronglySorted (score_ge σ') ranked)
      ∧ out = take (Z.to_nat (effective_top_k self k'))
                (apply_threshold σ' (effective_score_threshold self t') ranked))
  ∧ (0 < effective_top_k self k')%Z
  ∧ (∀ t, effective_score_threshold self t' = Some t →
       ∀ l, l ∈ out → ∃ s, score_of σ' l = Some s ∧ (t <= s)%Q)
  ∧ (length out
     ≤ Z.to_nat (effective_top_k self k')
       `min` length (apply_threshold σ' (effective_score_threshold self t')
                       documents))%nat.
Proof.
  intros Hne Hrun Hm Ht Hlen [Hperm Hsorted].
  destruct (run_ok_inv _ _ _ _ _ _ _ _ _ _ Hne Hrun)
    as (Hk & _ & fw & tk & ranked & Hm' & Ht' & Hloop & Hout).
  rewrite Hm in Hm'. rewrite Ht in Ht'. inversion Hm'. inversion Ht'. subst fw tk.
  set (S := scores_of_call self forward tokenize query documents s' c' σ) in *.
  assert (HlenS : length S = length documents).
  { unfold S, scores_of_call. by rewrite calibrate_length. }
  assert (HF := ranked_of_call _ _ _ _ _ _ Hloop).
  assert (Hrp : ranked ≡ₚ documents).
  { eapply read_along_Permutation; [|exact HF]. by rewrite <- HlenS. }
  split_and!.
  - exists ranked. split_and!; try done.
    intros Hnd Hwf. by eapply ranked_strongly_sorted.
  - done.
  - intros t Hthr l Hl. subst out. rewrite Hthr in Hl.
    apply elem_of_take in Hl as (i & Hl & _).
    apply list_elem_of_lookup_2 in Hl. by eapply threshold_passed.
  - subst out. rewrite length_take.
    by rewrite (apply_threshold_Permutation _ _ _ _ Hrp).
Qed.

(** With the [scale_score] and the [calibration_factor] left by the lines
    [scale_score = scale_score or self.scale_score] and
    [calibration_factor = calibration_factor or self.calibration_factor]:
    on a non-empty list a successful [run] leaves on every document the
    final score of a raw score the model produced for it:
    [sigmoid (x * calibration_factor)] for the raw score [x] when that
    [scale_score] is true (the factor is then not [None]), and [x] itself
    when it is false; when no object occurs twice,
    that is the raw score at the document's own position. The list of these
    final values is the one that is sorted, and the stored final value is
    the one the threshold is compared with. *)
Theorem run_score_calibration
    self query documents k' s' c' t' σ out σ' forward tokenize :
  documents ≠ [] →
  run self query documents k' s' c' t' σ = (Ok out, σ') →
  model self = Some forward →
  tokenizer self = Some tokenize →
  (∀ l, l ∈ documents → is_Some (σ !! l)) →
  length (forward (tokenize (query_doc_pairs self query documents σ)))
    = length documents →
  torch_sort_descending
      (scores_of_call self forward tokenize query documents s' c' σ)
    ≡ₚ seq 0 (length
                (scores_of_call self forward tokenize query documents s' c' σ)) →
  let raw := forward (tokenize (query_doc_pairs self query documents σ)) in
  let final := scores_of_call self forward tokenize query documents s' c' σ in
  (effective_scale_score self s' = true →
     ∃ c, effective_calibration_factor self c' = Some c
          ∧ final = map (λ x, sigmoid (x * c)%Q) raw
          ∧ (∀ l, l ∈ documents →
               ∃ j x, documents !! j = Some l ∧ raw !! j = Some x
                      ∧ score_of σ' l = Some (sigmoid (x * c)%Q))
          ∧ (NoDup documents →
             ∀ i l x, documents !! i = Some l → raw !! i = Some x →
               score_of σ' l = Some (sigmoid (x * c)%Q)))
  ∧ (effective_scale_score self s' = false →
     final = raw
     ∧ (∀ l, l ∈ documents →
          ∃ j x, documents !! j = Some l ∧ raw !! j = Some x
                 ∧ score_of σ' l = Some x)
     ∧ (NoDup documents →
        ∀ i l x, documents !! i = Some l → raw !! i = Some x →
          score_of σ' l = Some x))
  ∧ (∃ ranked,
       Forall2 (λ i l, documents !! i = Some l)
         (torch_sort_descending final) ranked
       ∧ out = take (Z.to_nat (effective_top_k self k'))
                 (apply_threshold σ' (effective_score_threshold self t')
                    ranked))
  ∧ (∀ t, effective_score_threshold self t' = Some t →
       ∀ l, l ∈ out → ∃ s, score_of σ' l = Some s ∧ (t <= s)%Q).
Proof.
  intros Hne Hrun Hm Ht Hwf Hlen Hperm raw final.
  destruct (run_ok_inv _ _ _ _ _ _ _ _ _ _ Hne Hrun)
    as (_ & Hcf & fw & tk & ranked & Hm' & Ht' & Hloop & Hout).
  rewrite Hm in Hm'. rewrite Ht in Ht'. inversion Hm'. inversion Ht'. subst fw tk.
  fold final in Hloop, Hperm.
  assert (HlenS : length final = length documents).
  { unfold final, scores_of_call. by rewrite calibrate_length. }
  assert (Hin : ∀ i l, documents !! i = Some l → i ∈ torch_sort_descending final).
  { intros i l Hl. rewrite Hperm. apply elem_of_seq.
    apply lookup_lt_Some in Hl. lia. }
  assert (Hany : ∀ l, l ∈ documents →
            ∃ j s, documents !! j = Some l ∧ final !! j = Some s
                   ∧ score_of σ' l = Some s).
  { intros l Hl. apply list_elem_of_lookup in Hl as [i Hi].
    destruct (rank_loop_scored _ _ _ _ _ _ _ l Hloop) as (j & s & _ & ? & ? & ?);
      eauto.
    apply Hwf. by eapply list_elem_of_lookup_2. }
  assert (Hsc : NoDup documents →
            ∀ i l, documents !! i = Some l → score_of σ' l = final !! i).
  { intros Hnd i l Hl. eapply rank_loop_score_at; eauto. }
  split_and!.
  - intros Hs. destruct (Hcf Hs) as [c Hc]. exists c.
    assert (Hfin : final = (λ x, sigmoid (x * c)%Q) <$> raw).
    { unfold final, scores_of_call, calibrate. by rewrite Hs, Hc. }
    split_and!; try done.
    + intros l Hl. destruct (Hany l Hl) as (j & s & Hj & Hsj & Hsl).
      rewrite Hfin, list_lookup_fmap in Hsj.
      destruct (raw !! j) as [x|] eqn:Hx; [|done]. simpl in Hsj.
      inversion Hsj; subst. eauto.
    + intros Hnd i l x Hl Hx.
      by rewrite (Hsc Hnd _ _ Hl), Hfin, list_lookup_fmap, Hx.
  - intros Hs.
    assert (Hfin : final = raw).
    { unfold final, scores_of_call, calibrate. by rewrite Hs. }
    split_and!; try done.
    + intros l Hl. destruct (Hany l Hl) as (j & s & Hj & Hsj & Hsl).
      rewrite Hfin in Hsj. eauto.
    + intros Hnd i l x Hl Hx. by rewrite (Hsc Hnd _ _ Hl), Hfin.
  - exists ranked. split; [|done]. by eapply ranked_of_call.
  - intros t Hthr l Hl. subst out. rewrite Hthr in Hl.
    apply elem_of_take in Hl as (i & Hl & _).
    apply list_elem_of_lookup_2 in Hl. by eapply threshold_passed.
Qed.




(** A call on a warmed-up instance with valid effective parameters returns
    a result, under the contracts of the scorer and of the sort. *)
Lemma run_succeeds self query documents k' s' c' t' σ forward tokenize :
  (0 < effective_top_k self k')%Z →
  (effective_scale_score self s' = true →
   is_Some (effective_calibration_factor self c')) →
  model self = Some forward →
  tokenizer self = Some tokenize →
  length (forward (tokenize (query_doc_pairs self query documents σ)))
    = length documents →
  torch_sort_descending
      (scores_of_call self forward tokenize query documents s' c' σ)
    ≡ₚ seq 0 (length
                (scores_of_call self forward tokenize query documents s' c' σ)) →
  ∃ out σ', run self query documents k' s' c' t' σ = (Ok out, σ').
Proof.
  intros Hk Hc Hm Ht Hlen Hperm. unfold run.
  destruct documents as [|l0 documents']; [eauto|].
  apply Z.leb_gt in Hk. rewrite Hk.
  assert (effective_scale_score self s'
          && is_none (effective_calibration_factor self c') = false) as ->.
  { destruct (effective_scale_score self s'); [|done].
    destruct (Hc eq_refl) as [c ->]. done. }
  rewrite Hm, Ht.
  fold (scores_of_call self forward tokenize query (l0 :: documents') s' c' σ).
  set (S := scores_of_call self forward tokenize query (l0 :: documents') s' c' σ)
    in *.
  assert (HlenS : length S = length (l0 :: documents')).
  { unfold S, scores_of_call. by rewrite calibrate_length. }
  destruct (rank_loop_total (l0 :: documents') S (torch_sort_descending S) [] σ)
    as (ranked & σ1 & ->); [|eauto].
  apply Forall_forall. intros i Hi. rewrite Hperm in Hi.
  apply elem_of_seq in Hi. rewrite <- HlenS. lia.
Qed.

(** The loop raises nothing but [IndexError]. *)
Lemma rank_loop_raises documents scores idxs acc σ e σ' :
  rank_loop documents scores idxs acc σ = (Raise e, σ') → e = IndexError.
Proof.
  revert acc σ. induction idxs as [|i rest IH]; intros acc σ H.
  - inversion H.
  - simpl in H.
    destruct (scores !! i); [|by inversion H].
    destruct (documents !! i); [|by inversion H]. eauto.
Qed.

(** A [ValueError] leaves every document as it was. *)
Lemma run_value_error_frame self query documents k' s' c' t' σ e σ' :
  run self query documents k' s' c' t' σ = (Raise (ValueError e), σ') →
  σ' = σ.
Proof.
  unfold run. destruct documents as [|l0 documents']; [by inversion 1|].
  destruct (_ <=? _)%Z; [by inversion 1|].
  destruct (_ && _); [by inversion 1|].
  destruct (model self); [|by inversion 1].
  destruct (tokenizer self); [|by inversion 1].
  destruct (rank_loop _ _ _ _ _) as [[ranked|e'] σ1] eqn:Hloop;
    [by inversion 1|].
  intros H. inversion H; subst.
  by apply rank_loop_raises in Hloop.
Qed.

(** On a non-empty list, [run] raises a [ValueError] exactly when the
    value left by [top_k or self.top_k] is not positive, or the value left
    by [scale_score or self.scale_score] is true while the one left by
    [calibration_factor or self.calibration_factor] is [None]. *)
Lemma run_value_error_iff self query documents k' s' c' t' σ :
  documents ≠ [] →
  (∃ e σ', run self query documents k' s' c' t' σ = (Raise (ValueError e), σ'))
  ↔ ((effective_top_k self k' ≤ 0)%Z
     ∨ (effective_scale_score self s' = true
        ∧ effective_calibration_factor self c' = None)).
Proof.
  intros Hne. destruct documents as [|l0 documents']; [done|]. unfold run.
  destruct (effective_top_k self k' <=? 0)%Z eqn:Hk.
  { apply Z.leb_le in Hk. split; eauto. }
  apply Z.leb_gt in Hk.
  destruct (effective_scale_score self s') eqn:Hs;
    destruct (effective_calibration_factor self c') as [c|] eqn:Hc; simpl.
  2: { split; eauto. }
  all: split; [|intros [?|[? ?]]; try lia; done].
  all: intros (e & σ' & H); exfalso.
  all: destruct (model self); [|by inversion H].
  all: destruct (tokenizer self); [|by inversion H].
  all: destruct (rank_loop _ _ _ _ _) as [[ranked|e'] σ1] eqn:Hloop;
         [by inversion H|].
  all: inversion H; subst.
  all: by apply rank_loop_raises in Hloop.
Qed.

(** *** Facts about construction and serialization *)

(** The dictionary an export shows under [model_kwargs] in a store. *)
Definition export_kwargs (e : Export) (h : gmap loc (gmap string Any))
  : gmap string Any :=
  kwargs_at h (ip_model_kwargs (init_parameters e)).

Lemma truthy_dict_lookup (d : gmap string Any) k v :
  d !! k = Some v → truthy (PDict d) = true.
Proof.
  intros Hk. simpl. destruct (map_to_list d) eqn:Hd; [|done].
  apply map_to_list_empty_iff in Hd. subst. by rewrite lookup_empty in Hk.
Qed.

Lemma truthy_dict_fmap (f : Any → Any) (d : gmap string Any) :
  truthy (PDict (f <$> d)) = truthy (PDict d).
Proof.
  simpl. destruct (map_to_list d) eqn:Hd.
  - apply map_to_list_empty_iff in Hd. subst. by rewrite fmap_empty, map_to_list_empty.
  - destruct (map_to_list (f <$> d)) eqn:Hd'; [|done].
    apply map_to_list_empty_iff, fmap_empty_iff in Hd'. subst.
    by rewrite map_to_list_empty in Hd.
Qed.

Lemma dtype_name_nonempty s n : dtype_name s = Some n → String.eqb s "" = false.
Proof. destruct s; [done|done]. Qed.

(** Truthiness survives stringification of dtype markers and decoding. *)
Lemma truthy_serialize v : truthy (serialize_hf_value v) = truthy v.
Proof. destruct v; try done. apply truthy_dict_fmap. Qed.

Lemma truthy_deserialize v : truthy (deserialize_hf_value v) = truthy v.
Proof.
  destruct v; try done.
  - simpl. destruct (dtype_name s) eqn:Hs; [|done]. simpl.
    by rewrite (dtype_name_nonempty _ _ Hs).
  - apply truthy_dict_fmap.
Qed.

Lemma get_truthy_fmap (f : Any → Any) (d : gmap string Any) k :
  (∀ v, truthy (f v) = truthy v) →
  get_truthy (f <$> d) k = get_truthy d k.
Proof.
  intros Hf. unfold get_truthy. rewrite lookup_fmap.
  destruct (d !! k); simpl; [apply Hf|done].
Qed.

(** The constructor refuses a placement given twice. *)
Lemma init_device_conflict model' d token' top_k' fields sep scale cf thr l h :
  get_truthy (kwargs_at h l) "device_map" = true →
  __init__ model' (Some d) token' top_k' fields sep scale cf thr (Some l) h
  = (Raise (ValueError device_and_device_map), h).
Proof.
  intros Hdm. unfold __init__, kwargs_or_empty.
  assert (truthy (PDict (kwargs_at h l)) = true) as ->.
  { unfold get_truthy in Hdm.
    destruct (kwargs_at h l !! "device_map") eqn:Hl; [|done].
    by eapply truthy_dict_lookup. }
  by rewrite Hdm.
Qed.

(** Without a placement given twice, the constructor raises a
    [ValueError] exactly on invalid ranking parameters. *)
Lemma init_value_error_iff model' d token' top_k' fields sep scale cf thr kw h :
  (get_truthy (kwargs_at h (default 0 kw)) "device_map" && negb (is_none d)
   = false ∨ kw = None) →
  (∃ e h', __init__ model' d token' top_k' fields sep scale cf thr kw h
           = (Raise (ValueError e), h'))
  ↔ ((top_k' ≤ 0)%Z ∨ (scale = true ∧ cf = None)).
Proof.
  intros Hno. unfold __init__.
  destruct (kwargs_or_empty kw h) as [l h1] eqn:Hkw.
  assert (get_truthy (kwargs_at h1 l) "device_map" && negb (is_none d) = false)
    as ->.
  { unfold kwargs_or_empty in Hkw.
    assert (Hfresh : get_truthy
              (kwargs_at (<[fresh (dom h) := ∅]> h) (fresh (dom h)))
              "device_map" = false).
    { unfold kwargs_at. by rewrite lookup_insert_eq. }
    destruct kw as [l'|]; simpl in *.
    - destruct Hno as [Hno|?]; [|done].
      destruct (map_to_list (kwargs_at h l')); inversion Hkw; subst;
        [by rewrite Hfresh|done].
    - inversion Hkw; subst. by rewrite Hfresh. }
  destruct scale, cf as [c|]; simpl;
    destruct (top_k' <=? 0)%Z eqn:Hk;
    try apply Z.leb_le in Hk; try apply Z.leb_gt in Hk;
    split; eauto; try (intros (? & ? & ?); done);
    try (intros [?|[? ?]]; try lia; done).
Qed.

(** C1. An override that Python counts as false is treated as absent: a
    call given [top_k=0], [scale_score=False], [calibration_factor=0.0]
    and [score_threshold=0.0] computes the stored defaults as effective
    values and behaves as the call given no override at all. *)
Theorem run_falsy_override_falls_back self query documents σ :
  effective_top_k self (Some 0%Z) = top_k self
  ∧ effective_scale_score self (Some false) = scale_score self
  ∧ effective_calibration_factor self (Some 0%Q) = calibration_factor self
  ∧ effective_score_threshold self (Some 0%Q) = score_threshold self
  ∧ run self query documents (Some 0%Z) (Some false) (Some 0%Q) (Some 0%Q) σ
    = run self query documents None None None None σ.
Proof. by split_and!. Qed.

(** C4. On an instance that stores [scale_score=True], a call given
    [scale_score=False] is the call given [scale_score=True]: the raw
    scores are still multiplied by the calibration factor and passed
    through the sigmoid, and these are the values written, sorted and
    compared with the threshold. A call given [calibration_factor=0.0] is
    the call given none. *)
Theorem run_scale_score_false_still_scales
    self query documents k' c' t' s' σ :
  scale_score self = true →
  run self query documents k' (Some false) c' t' σ
  = run self query documents k' (Some true) c' t' σ
  ∧ run self query documents k' s' (Some 0%Q) t' σ
    = run self query documents k' s' None t' σ.
Proof.
  intros Hs. split; [|done].
  unfold run, effective_scale_score, py_or, id. by rewrite Hs.
Qed.

(** An override that Python counts as true replaces the stored default,
    and an absent one leaves it. *)
Lemma effective_overrides self k b c t :
  (k ≠ 0%Z → effective_top_k self (Some k) = k)
  ∧ effective_scale_score self (Some true) = true
  ∧ (¬ (c == 0)%Q → effective_calibration_factor self (Some c) = Some c)
  ∧ (¬ (t == 0)%Q → effective_score_threshold self (Some t) = Some t)
  ∧ effective_top_k self None = top_k self
  ∧ effective_scale_score self None = scale_score self
  ∧ effective_calibration_factor self None = calibration_factor self
  ∧ effective_score_threshold self None = score_threshold self
  ∧ effective_scale_score self (Some b) = b || scale_score self.
Proof.
  split_and!; try done.
  - intros Hk. unfold effective_top_k, py_or, int_truthy.
    by apply Z.eqb_neq in Hk as ->.
  - intros Hc. unfold effective_calibration_factor, py_or_opt, float_truthy.
    destruct (Qeq_bool c 0) eqn:Hq; [|done]. by apply Qeq_bool_eq in Hq.
  - intros Hc. unfold effective_score_threshold, py_or_opt, float_truthy.
    destruct (Qeq_bool t 0) eqn:Hq; [|done]. by apply Qeq_bool_eq in Hq.
  - by destruct b.
Qed.

(** C2. A constructor call that names a device and also carries a
    ["device_map"] entry in [model_kwargs] does not return an instance: it
    raises [ValueError]. *)
Theorem init_device_and_device_map_raises
    model' d token' top_k' fields sep scale cf thr :
  __init__ model' (Some d) token' top_k' fields sep scale cf thr (Some 0)
    {[ 0 := {[ "device_map" := PStr "cpu" ]} ]}
  = (Raise (ValueError device_and_device_map),
     {[ 0 := {[ "device_map" := PStr "cpu" ]} ]}).
Proof. by apply init_device_conflict. Qed.

(** The export never carries a literal token, and keeps the others. *)
Lemma to_dict_token self h :
  ip_token (init_parameters (to_dict self h).1)
  = match token self with
    | TokenStr _ => TokenNone
    | TokenBool b => TokenBool b
    | TokenNone => TokenNone
    end.
Proof. simpl. by destruct (token self). Qed.

(** C8. For an instance whose [model_kwargs] hold a ["device_map"] entry
    (given to the constructor, or written by [warm_up]), importing its
    own export does not produce an instance: the constructor is called
    with the exported device and with the exported ["device_map"], and
    raises [ValueError]. *)
Theorem from_dict_of_to_dict_device_map_raises self h :
  get_truthy (kwargs_at h (model_kwargs self)) "device_map" = true →
  (from_dict (to_dict self h).1 (to_dict self h).2).1
  = Raise (ValueError device_and_device_map).
Proof.
  intros Hdm. unfold from_dict, to_dict. cbn [fst snd init_parameters type
    ip_model_kwargs ip_device ip_model ip_token ip_top_k
    ip_meta_fields_to_embed ip_embedding_separator ip_scale_score
    ip_calibration_factor ip_score_threshold].
  rewrite String.eqb_refl. cbn [negb].
  rewrite init_device_conflict; [done|].
  unfold kwargs_at at 1. rewrite lookup_insert_eq. cbn [default id].
  unfold kwargs_at at 1. rewrite lookup_insert_eq. cbn [default id].
  unfold deserialize_hf_model_kwargs, serialize_hf_model_kwargs.
  rewrite get_truthy_fmap by apply truthy_deserialize.
  by rewrite get_truthy_fmap by apply truthy_serialize.
Qed.

(** C10, as the code has it. On an instance that was never warmed up, [warm_up]
    writes the resolved placement under ["device_map"] in the stored
    [model_kwargs], where a second [warm_up] leaves it; the export produced
    after [warm_up] therefore has a ["device_map"] entry in
    [model_kwargs]. When the stored [model_kwargs] held no such key before,
    the export produced before [warm_up], as it read when it was produced,
    has no such entry, and the two exports differ. When the stored
    [model_kwargs] held the key already, the export produced before
    [warm_up] has the entry too. *)
Theorem warm_up_writes_device_map self h :
  model self = None →
  let e0 := (to_dict self h).1 in
  let h0 := (to_dict self h).2 in
  let self1 := (warm_up self h0).1 in
  let h1 := (warm_up self h0).2 in
  let e1 := (to_dict self1 h1).1 in
  let h2 := (to_dict self1 h1).2 in
  model_kwargs self1 = model_kwargs self
  ∧ kwargs_at h1 (model_kwargs self) !! "device_map"
    = Some (to_hf (device self))
  ∧ warm_up self1 h1 = (self1, h1)
  ∧ export_kwargs e1 h2 !! "device_map"
    = Some (serialize_hf_value (to_hf (device self)))
  ∧ (kwargs_at h (model_kwargs self) !! "device_map" = None →
     export_kwargs e0 h0 !! "device_map" = None
     ∧ export_value e0 h0 ≠ export_value e1 h2)
  ∧ (∀ v, kwargs_at h (model_kwargs self) !! "device_map" = Some v →
       export_kwargs e0 h0 !! "device_map" = Some (serialize_hf_value v)).
Proof.
  intros Hm e0 h0 self1 h1 e1 h2.
  assert (Hw : warm_up self h0
               = ({| model_name_or_path := model_name_or_path self;
                     model := Some (AutoModel_from_pretrained
                                      (model_name_or_path self) (token self)
                                      (kwargs_at
                                         (<[model_kwargs self :=
                                              <["device_map" := to_hf (device self)]>
                                                (kwargs_at h0 (model_kwargs self))]> h0)
                                         (model_kwargs self)));
                     tokenizer := Some (AutoTokenizer_from_pretrained
                                          (model_name_or_path self) (token self));
                     top_k := top_k self;
                     token := token self;
                     meta_fields_to_embed := meta_fields_to_embed self;
                     embedding_separator := embedding_separator self;
                     scale_score := scale_score self;
                     calibration_factor := calibration_factor self;
                     score_threshold := score_threshold self;
                     model_kwargs := model_kwargs self;
                     device := device self |},
                  <[model_kwargs self :=
                      <["device_map" := to_hf (device self)]>
                        (kwargs_at h0 (model_kwargs self))]> h0)).
  { unfold warm_up. by rewrite Hm. }
  assert (Hk1 : model_kwargs self1 = model_kwargs self).
  { unfold self1. by rewrite Hw. }
  assert (Hd1 : device self1 = device self).
  { unfold self1. by rewrite Hw. }
  assert (Hh1 : kwargs_at h1 (model_kwargs self)
                = <["device_map" := to_hf (device self)]>
                    (kwargs_at h0 (model_kwargs self))).
  { unfold h1. rewrite Hw. unfold kwargs_at at 1. simpl.
    by rewrite lookup_insert_eq. }
  assert (He1 : export_kwargs e1 h2
                = serialize_hf_model_kwargs (kwargs_at h1 (model_kwargs self))).
  { unfold export_kwargs, e1, h2, to_dict. simpl. rewrite Hk1.
    unfold kwargs_at at 1. by rewrite lookup_insert_eq. }
  assert (He1dm : export_kwargs e1 h2 !! "device_map"
                  = Some (serialize_hf_value (to_hf (device self)))).
  { rewrite He1, Hh1. unfold serialize_hf_model_kwargs.
    by rewrite lookup_fmap, lookup_insert_eq. }
  split_and!; try done.
  - by rewrite Hh1, lookup_insert_eq.
  - unfold self1, h1. rewrite Hw. done.
  - intros Hnone.
    assert (He0 : export_kwargs e0 h0 !! "device_map" = None).
    { unfold export_kwargs, e0, h0, to_dict. simpl.
      unfold kwargs_at at 1. rewrite lookup_insert_eq. simpl.
      unfold serialize_hf_model_kwargs. by rewrite lookup_fmap, Hnone. }
    split; [done|]. intros Heq.
    assert (Hk : export_kwargs e0 h0 = export_kwargs e1 h2).
    { unfold export_value in Heq. inversion Heq. done. }
    rewrite Hk, He1dm in He0. done.
  - intros v Hv. unfold export_kwargs, e0, h0, to_dict. simpl.
    unfold kwargs_at at 1. rewrite lookup_insert_eq. simpl.
    unfold serialize_hf_model_kwargs. by rewrite lookup_fmap, Hv.
Qed.
(** *** Further properties of [run] *)

(** The store a call leaves is the one it was given, or the one the loop
    leaves. *)
Lemma run_store_cases self query documents k' s' c' t' σ :
  (run self query documents k' s' c' t' σ).2 = σ
  ∨ ∃ scores idxs r,
      rank_loop documents scores idxs [] σ
      = (r, (run self query documents k' s' c' t' σ).2).
Proof.
  unfold run. destruct documents as [|l0 ds]; [by left|].
  destruct (_ <=? _)%Z; [by left|].
  destruct (_ && _); [by left|].
  destruct (model self) as [fw|]; [|by left].
  destruct (tokenizer self) as [tk|]; [|by left].
  right.
  destruct (rank_loop (l0 :: ds) _ _ [] σ) as [[ranked|e] σ1] eqn:Hloop;
    repeat eexists; exact Hloop.
Qed.

(** Whatever the outcome, a call writes nothing but the score of listed
    documents: no object appears or disappears, contents and metadata are
    as before, and an object that is not in the list is untouched. *)
Theorem run_writes_scores_only self query documents k' s' c' t' σ :
  dom (run self query documents k' s' c' t' σ).2 = dom σ
  ∧ (∀ l, content <$> (run self query documents k' s' c' t' σ).2 !! l
          = content <$> σ !! l
          ∧ meta <$> (run self query documents k' s' c' t' σ).2 !! l
            = meta <$> σ !! l)
  ∧ (∀ l, l ∉ documents →
          (run self query documents k' s' c' t' σ).2 !! l = σ !! l).
Proof.
  destruct (run_store_cases self query documents k' s' c' t' σ)
    as [->|(scores & idxs & r & Hloop)]; [done|].
  split_and!.
  - by eapply rank_loop_dom.
  - by eapply rank_loop_frame.
  - intros l Hl. eapply rank_loop_untouched; [done|].
    intros i _ Hi. apply Hl. by eapply list_elem_of_lookup_2.
Qed.

(** An exception other than [IndexError] is raised before any document is
    given a score. *)
Theorem run_error_leaves_documents self query documents k' s' c' t' σ e σ' :
  run self query documents k' s' c' t' σ = (Raise e, σ') →
  e ≠ IndexError →
  σ' = σ.
Proof.
  unfold run. destruct documents as [|l0 ds]; [by inversion 1|].
  destruct (_ <=? _)%Z; [by inversion 1|].
  destruct (_ && _); [by inversion 1|].
  destruct (model self); [|by inversion 1].
  destruct (tokenizer self); [|by inversion 1].
  destruct (rank_loop _ _ _ _ _) as [[ranked|e'] σ1] eqn:Hloop;
    [by inversion 1|].
  intros H Hne. inversion H; subst.
  by apply rank_loop_raises in Hloop.
Qed.

(** The fused text reads the content and the metadata of a document and
    nothing else. *)
Lemma text_to_embed_ext self d1 d2 :
  content d1 = content d2 → meta d1 = meta d2 →
  text_to_embed self d1 = text_to_embed self d2.
Proof.
  intros Hc Hm. unfold text_to_embed, meta_values_to_embed.
  by rewrite Hc, Hm.
Qed.

Lemma query_doc_pairs_ext self query documents σ1 σ2 :
  (∀ l, content <$> σ1 !! l = content <$> σ2 !! l
        ∧ meta <$> σ1 !! l = meta <$> σ2 !! l) →
  query_doc_pairs self query documents σ1
  = query_doc_pairs self query documents σ2.
Proof.
  intros H. unfold query_doc_pairs. apply map_ext. intros l.
  f_equal. apply text_to_embed_ext; unfold deref;
    destruct (H l) as [Hc Hm];
    destruct (σ1 !! l), (σ2 !! l); simpl in *; congruence.
Qed.

(** The score the loop writes last on an object, if it writes one. *)
Fixpoint last_written (documents : list loc) (scores : list Q)
    (idxs : list nat) (l : loc) : option Q :=
  match idxs with
  | [] => None
  | i :: rest =>
      match scores !! i, documents !! i with
      | Some s, Some l' =>
          match last_written documents scores rest l with
          | Some s' => Some s'
          | None => if decide (l' = l) then Some s else None
          end
      | _, _ => None
      end
  end.

Lemma rank_loop_lookup documents scores idxs acc σ r σ' l :
  rank_loop documents scores idxs acc σ = (r, σ') →
  σ' !! l = match last_written documents scores idxs l with
            | Some s => set_score s <$> σ !! l
            | None => σ !! l
            end.
Proof.
  revert acc σ. induction idxs as [|i rest IH]; intros acc σ H.
  - simpl in H. by inversion H.
  - simpl in *.
    destruct (scores !! i) as [s|]; [|by inversion H].
    destruct (documents !! i) as [l'|]; [|by inversion H].
    rewrite (IH _ _ H). rewrite lookup_alter.
    destruct (last_written documents scores rest l) as [s'|];
      case_decide; subst; try done.
    by destruct (σ !! l).
Qed.

Lemma rank_loop_result documents scores idxs acc σ1 σ2 :
  (rank_loop documents scores idxs acc σ1).1
  = (rank_loop documents scores idxs acc σ2).1.
Proof.
  revert acc σ1 σ2. induction idxs as [|i rest IH]; intros acc σ1 σ2.
  - done.
  - simpl. destruct (scores !! i); [|done].
    destruct (documents !! i); [|done]. apply IH.
Qed.

(** Running the loop again on the store it left changes nothing. *)
Lemma rank_loop_again documents scores idxs acc σ r σ' :
  rank_loop documents scores idxs acc σ = (r, σ') →
  rank_loop documents scores idxs acc σ' = (r, σ').
Proof.
  intros H.
  destruct (rank_loop documents scores idxs acc σ') as [r2 σ2] eqn:H2.
  f_equal.
  - pose proof (rank_loop_result documents scores idxs acc σ σ') as Hr.
    by rewrite H, H2 in Hr.
  - apply map_eq. intros l.
    rewrite (rank_loop_lookup _ _ _ _ _ _ _ l H2).
    rewrite (rank_loop_lookup _ _ _ _ _ _ _ l H).
    destruct (last_written documents scores idxs l); [|done].
    by destruct (σ !! l).
Qed.

(** Scores left by an earlier call do not influence a later one: the same
    call on the store it left gives the same outcome and leaves the store
    as it is. *)
Theorem run_again_same self query documents k' s' c' t' σ r σ' :
  run self query documents k' s' c' t' σ = (r, σ') →
  run self query documents k' s' c' t' σ' = (r, σ').
Proof.
  intros H.
  assert (Hpairs : query_doc_pairs self query documents σ'
                   = query_doc_pairs self query documents σ).
  { apply query_doc_pairs_ext. intros l.
    destruct (run_store_cases self query documents k' s' c' t' σ)
      as [Heq|(scores & idxs & r0 & Hloop)]; rewrite H in *; simpl in *.
    - by subst.
    - by eapply rank_loop_frame. }
  revert H. unfold run. destruct documents as [|l0 ds]; [by inversion 1|].
  destruct (_ <=? _)%Z; [by inversion 1|].
  destruct (_ && _); [by inversion 1|].
  destruct (model self) as [fw|]; [|by inversion 1].
  destruct (tokenizer self) as [tk|]; [|by inversion 1].
  rewrite Hpairs.
  destruct (rank_loop (l0 :: ds) _ _ [] σ) as [r1 σ1] eqn:Hloop.
  intros H.
  assert (σ1 = σ') as -> by (destruct r1; by inversion H).
  by rewrite (rank_loop_again _ _ _ _ _ _ _ Hloop).
Qed.

(** [top_k] only cuts the result: with the other arguments fixed, the
    result for a smaller positive [top_k] is the beginning of the result
    for a larger one, and the scores written are the same. *)
Theorem run_top_k_prefix
    self query documents k1 k2 s' c' t' σ out1 out2 σ1 σ2 :
  (0 < k1 ≤ k2)%Z →
  run self query documents (Some k1) s' c' t' σ = (Ok out1, σ1) →
  run self query documents (Some k2) s' c' t' σ = (Ok out2, σ2) →
  σ1 = σ2 ∧ out1 = take (Z.to_nat k1) out2.
Proof.
  intros Hk H1 H2.
  destruct (decide (documents = [])) as [->|Hne].
  { simpl in *. inversion H1; inversion H2; subst. by rewrite take_nil. }
  destruct (run_ok_inv _ _ _ _ _ _ _ _ _ _ Hne H1)
    as (_ & _ & fw & tk & ranked & Hm & Ht & Hloop & ->).
  destruct (run_ok_inv _ _ _ _ _ _ _ _ _ _ Hne H2)
    as (_ & _ & fw' & tk' & ranked' & Hm' & Ht' & Hloop' & ->).
  rewrite Hm in Hm'. rewrite Ht in Ht'. inversion Hm'. inversion Ht'.
  subst fw' tk'. rewrite Hloop in Hloop'. inversion Hloop'; subst.
  split; [done|].
  assert (Hk1 : effective_top_k self (Some k1) = k1).
  { unfold effective_top_k, py_or, int_truthy.
    destruct (k1 =? 0)%Z eqn:E; [apply Z.eqb_eq in E; lia|done]. }
  assert (Hk2 : effective_top_k self (Some k2) = k2).
  { unfold effective_top_k, py_or, int_truthy.
    destruct (k2 =? 0)%Z eqn:E; [apply Z.eqb_eq in E; lia|done]. }
  rewrite Hk1, Hk2, take_take. f_equal. lia.
Qed.

Lemma list_filter_nil_iff {A : Type} (f : A → bool) (l : list A) :
  List.filter f l = [] ↔ ∀ x, x ∈ l → f x = false.
Proof.
  induction l as [|a l IH]; simpl.
  - split; [|done]. intros _ x Hx. by apply elem_of_nil in Hx.
  - destruct (f a) eqn:Ha.
    + split; [done|]. intros H. rewrite (H a) in Ha; [done|left].
    + rewrite IH. split.
      * intros H x Hx. apply elem_of_cons in Hx as [->|Hx]; eauto.
      * intros H x Hx. apply H. by right.
Qed.

(** Under the contracts of the scorer and of the sort, the loop of a
    successful call returns a permutation of the input and leaves a score
    on every listed object. *)
Lemma run_ranked_inv self query documents k' s' c' t' σ out σ' forward tokenize :
  documents ≠ [] →
  run self query documents k' s' c' t' σ = (Ok out, σ') →
  model self = Some forward →
  tokenizer self = Some tokenize →
  length (forward (tokenize (query_doc_pairs self query documents σ)))
    = length documents →
  torch_sort_descending
      (scores_of_call self forward tokenize query documents s' c' σ)
    ≡ₚ seq 0 (length
                (scores_of_call self forward tokenize query documents s' c' σ)) →
  ∃ ranked,
    ranked ≡ₚ documents
    ∧ out = take (Z.to_nat (effective_top_k self k'))
              (apply_threshold σ' (effective_score_threshold self t') ranked)
    ∧ (0 < effective_top_k self k')%Z
    ∧ ((∀ l, l ∈ documents → is_Some (σ !! l)) →
       ∀ l, l ∈ documents → is_Some (score_of σ' l)).
Proof.
  intros Hne Hrun Hm Ht Hlen Hperm.
  destruct (run_ok_inv _ _ _ _ _ _ _ _ _ _ Hne Hrun)
    as (Hk & _ & fw & tk & ranked & Hm' & Ht' & Hloop & Hout).
  rewrite Hm in Hm'. rewrite Ht in Ht'. inversion Hm'. inversion Ht'. subst fw tk.
  set (S := scores_of_call self forward tokenize query documents s' c' σ) in *.
  assert (HlenS : length S = length documents).
  { unfold S, scores_of_call. by rewrite calibrate_length. }
  exists ranked. split_and!; try done.
  - eapply read_along_Permutation; [|by eapply ranked_of_call].
    by rewrite <- HlenS.
  - intros Hwf l Hl. apply list_elem_of_lookup in Hl as [i Hi].
    destruct (rank_loop_scored _ _ _ _ _ _ _ l Hloop) as (j & s & _ & _ & _ & ->);
      [| |done].
    + apply Hwf. by eapply list_elem_of_lookup_2.
    + exists i. split; [|done]. rewrite Hperm. apply elem_of_seq.
      apply lookup_lt_Some in Hi. lia.
Qed.

(** A successful call returns no document more often than the input lists
    it, and without a threshold and with [top_k] at least the number of
    documents it returns all of them. *)
Theorem run_returns_input_documents
    self query documents k' s' c' t' σ out σ' forward tokenize :
  run self query documents k' s' c' t' σ = (Ok out, σ') →
  model self = Some forward →
  tokenizer self = Some tokenize →
  length (forward (tokenize (query_doc_pairs self query documents σ)))
    = length documents →
  torch_sort_descending
      (scores_of_call self forward tokenize query documents s' c' σ)
    ≡ₚ seq 0 (length
                (scores_of_call self forward tokenize query documents s' c' σ)) →
  out ⊆+ documents
  ∧ (effective_score_threshold self t' = None →
     (length documents ≤ Z.to_nat (effective_top_k self k'))%nat →
     out ≡ₚ documents).
Proof.
  intros Hrun Hm Ht Hlen Hperm.
  destruct (decide (documents = [])) as [->|Hne].
  { simpl in Hrun. inversion Hrun; subst. done. }
  destruct (run_ranked_inv _ _ _ _ _ _ _ _ _ _ _ _ Hne Hrun Hm Ht Hlen Hperm)
    as (ranked & Hrp & -> & _ & _).
  split.
  - rewrite <- Hrp. apply sublist_submseteq.
    etrans; [apply sublist_take|apply apply_threshold_sublist].
  - intros -> Hk. simpl. rewrite take_ge; [done|]. by rewrite Hrp.
Qed.

(** A successful call on a non-empty list returns the empty list exactly
    when there is an effective threshold and every document scored below
    it. *)
Theorem run_result_empty_iff
    self query documents k' s' c' t' σ out σ' forward tokenize :
  documents ≠ [] →
  run self query documents k' s' c' t' σ = (Ok out, σ') →
  model self = Some forward →
  tokenizer self = Some tokenize →
  (∀ l, l ∈ documents → is_Some (σ !! l)) →
  length (forward (tokenize (query_doc_pairs self query documents σ)))
    = length documents →
  torch_sort_descending
      (scores_of_call self forward tokenize query documents s' c' σ)
    ≡ₚ seq 0 (length
                (scores_of_call self forward tokenize query documents s' c' σ)) →
  out = []
  ↔ ∃ t, effective_score_threshold self t' = Some t
         ∧ ∀ l, l ∈ documents →
             ∃ s, score_of σ' l = Some s ∧ (s < t)%Q.
Proof.
  intros Hne Hrun Hm Ht Hwf Hlen Hperm.
  destruct (run_ranked_inv _ _ _ _ _ _ _ _ _ _ _ _ Hne Hrun Hm Ht Hlen Hperm)
    as (ranked & Hrp & -> & Hk & Hsc).
  specialize (Hsc Hwf).
  assert (Hnat : ∃ n, Z.to_nat (effective_top_k self k') = S n).
  { exists (Nat.pred (Z.to_nat (effective_top_k self k'))). lia. }
  destruct Hnat as [n ->].
  assert (Htake : ∀ X : list loc, take (S n) X = [] ↔ X = []).
  { intros [|x X]; simpl; split; done. }
  rewrite Htake.
  destruct (effective_score_threshold self t') as [t|]; simpl.
  - rewrite list_filter_nil_iff. split.
    + intros H. exists t. split; [done|]. intros l Hl.
      destruct (Hsc l Hl) as [s Hs]. exists s. split; [done|].
      assert (Hl' : l ∈ ranked) by by rewrite Hrp.
      specialize (H l Hl'). unfold score_at_least in H. rewrite Hs in H.
      apply Qnot_le_lt. intros Hle. apply Qle_bool_iff in Hle. congruence.
    + intros (t0 & Ht0 & H) l Hl. inversion Ht0; subst t0.
      rewrite Hrp in Hl. destruct (H l Hl) as (s & Hs & Hlt).
      unfold score_at_least. rewrite Hs.
      destruct (Qle_bool t s) eqn:E; [|done].
      apply Qle_bool_iff in E. exfalso. by eapply Qlt_not_le.
  - split.
    + intros ->. apply Permutation_nil_l in Hrp. done.
    + intros (t & Ht0 & _). done.
Qed.

(** The instance with other stored ranking parameters. *)
Definition with_parameters (self : Ranker) (top_k' : Z) (scale_score' : bool)
    (calibration_factor' score_threshold' : option Q) : Ranker :=
  {| model_name_or_path := model_name_or_path self;
     model := model self;
     tokenizer := tokenizer self;
     top_k := top_k';
     token := token self;
     meta_fields_to_embed := meta_fields_to_embed self;
     embedding_separator := embedding_separator self;
     scale_score := scale_score';
     calibration_factor := calibration_factor';
     score_threshold := score_threshold';
     model_kwargs := model_kwargs self;
     device := device self |}.

(** Overrides that Python counts as true act for the call as if they were
    the stored parameters: the call is the call without overrides on the
    instance holding these values. *)
Theorem run_override_as_stored self query documents k c t σ :
  k ≠ 0%Z → ¬ (c == 0)%Q → ¬ (t == 0)%Q →
  run self query documents (Some k) (Some true) (Some c) (Some t) σ
  = run (with_parameters self k true (Some c) (Some t)) query documents
      None None None None σ.
Proof.
  intros Hk Hc Ht. unfold run.
  destruct documents as [|l0 ds]; [done|].
  unfold effective_top_k, effective_scale_score, effective_calibration_factor,
    effective_score_threshold, py_or, py_or_opt, int_truthy, float_truthy.
  apply Z.eqb_neq in Hk. rewrite Hk.
  assert (Qeq_bool c 0 = false) as ->.
  { destruct (Qeq_bool c 0) eqn:E; [|done]. by apply Qeq_bool_eq in E. }
  assert (Qeq_bool t 0 = false) as ->.
  { destruct (Qeq_bool t 0) eqn:E; [|done]. by apply Qeq_bool_eq in E. }
  reflexivity.
Qed.

(** *** Further properties of the text handed to the scorer *)

(** Configured fields that a document lacks, or holds with a value Python
    counts as false, add nothing: the text is then the content alone, and
    the empty string when there is no content. *)
Theorem text_to_embed_without_meta self doc :
  (∀ key, key ∈ meta_fields_to_embed self →
     match meta doc !! key with
     | Some v => meta_truthy v = false
     | None => True
     end) →
  text_to_embed self doc = default "" (content doc).
Proof.
  intros H. unfold text_to_embed, meta_values_to_embed.
  assert (omap (λ key, match meta doc !! key with
                       | Some v => if meta_truthy v then Some (py_str v) else None
                       | None => None
                       end) (meta_fields_to_embed self) = []) as ->.
  { revert H. generalize (meta_fields_to_embed self) as ks.
    induction ks as [|k ks IH]; intros H; simpl; [done|].
    pose proof (H k (list_elem_of_here _ _)) as Hk.
    destruct (meta doc !! k) as [v|].
    - rewrite Hk. apply IH. intros key Hkey. apply H. by right.
    - apply IH. intros key Hkey. apply H. by right. }
  simpl. destruct (content doc) as [c|]; simpl; [|done].
  destruct (String.eqb c "") eqn:E; simpl; [|done].
  by apply String.eqb_eq in E.
Qed.

(** The text depends on the content and on the configured metadata keys
    only: neither the score nor any other key reaches the scorer. *)
Theorem text_to_embed_configured_keys self d1 d2 :
  content d1 = content d2 →
  (∀ key, key ∈ meta_fields_to_embed self → meta d1 !! key = meta d2 !! key) →
  text_to_embed self d1 = text_to_embed self d2.
Proof.
  intros Hc H. unfold text_to_embed, meta_values_to_embed. rewrite Hc.
  f_equal. f_equal. revert H.
  generalize (meta_fields_to_embed self) as ks.
  induction ks as [|k ks IH]; intros H; csimpl; [done|].
  rewrite (H k (list_elem_of_here _ _)).
  rewrite IH; [done|]. intros key Hkey. apply H. by right.
Qed.

(** *** Further properties of construction, warm-up and export *)

(** [_get_telemetry_data]. *)
Definition _get_telemetry_data (self : Ranker) : gmap string string :=
  {[ "model" := model_name_or_path self ]}.

(** Whether the dictionary the caller passes holds a ["device_map"] that
    Python counts as true. *)
Definition given_device_map (model_kwargs' : option loc)
    (h : gmap loc (gmap string Any)) : bool :=
  match model_kwargs' with
  | Some l => get_truthy (kwargs_at h l) "device_map"
  | None => false
  end.

Lemma truthy_dict_false (d : gmap string Any) :
  truthy (PDict d) = false → d = ∅.
Proof.
  simpl. destruct (map_to_list d) eqn:Hd; [|done].
  intros _. by apply map_to_list_empty_iff.
Qed.

Lemma kwargs_or_empty_at kw h :
  kwargs_at (kwargs_or_empty kw h).2 (kwargs_or_empty kw h).1
  = from_option (kwargs_at h) ∅ kw.
Proof.
  assert (Hfresh : kwargs_at (<[fresh (dom h) := ∅]> h) (fresh (dom h)) = ∅).
  { unfold kwargs_at. by rewrite lookup_insert_eq. }
  unfold kwargs_or_empty. destruct kw as [l|]; simpl; [|done].
  destruct (match map_to_list (kwargs_at h l) with [] => false | _ => true end)
    eqn:E; simpl; [done|].
  rewrite Hfresh. symmetry. by apply truthy_dict_false.
Qed.

Lemma kwargs_or_empty_device_map kw h :
  get_truthy (kwargs_at (kwargs_or_empty kw h).2 (kwargs_or_empty kw h).1)
    "device_map"
  = given_device_map kw h.
Proof. rewrite kwargs_or_empty_at. by destruct kw. Qed.

(** What the constructor returns when it returns. *)
Lemma init_ok_inv model' d token' top_k' fields sep scale cf thr kw h r h1 :
  __init__ model' d token' top_k' fields sep scale cf thr kw h = (Ok r, h1) →
  given_device_map kw h && negb (is_none d) = false
  ∧ (0 < top_k')%Z
  ∧ (scale = true → is_Some cf)
  ∧ (model_kwargs r, h1) = kwargs_or_empty kw h
  ∧ r = {| model_name_or_path := model';
           model := None;
           tokenizer := None;
           top_k := top_k';
           token := token';
           meta_fields_to_embed := default [] fields;
           embedding_separator := sep;
           scale_score := scale;
           calibration_factor := cf;
           score_threshold := thr;
           model_kwargs := model_kwargs r;
           device :=
             if given_device_map kw h
             then from_multiple_from_hf
                    (default PNone
                       (from_option (kwargs_at h) ∅ kw !! "device_map"))
             else resolve_device d |}.
Proof.
  unfold __init__.
  pose proof (kwargs_or_empty_device_map kw h) as Hdm.
  pose proof (kwargs_or_empty_at kw h) as Hat.
  destruct (kwargs_or_empty kw h) as [l h'] eqn:Hkw. simpl in Hdm, Hat.
  rewrite Hdm, Hat.
  destruct (given_device_map kw h && negb (is_none d)) eqn:Hc;
    [by inversion 1|].
  destruct (scale && is_none cf) eqn:Hs; [by inversion 1|].
  destruct (top_k' <=? 0)%Z eqn:Hk; [by inversion 1|].
  intros H. inversion H; subst; simpl. apply Z.leb_gt in Hk.
  split_and!; try done.
  - intros ->. destruct cf; [eauto|done].
  - f_equal. destruct (given_device_map kw h); [|done].
    simpl in Hc. by destruct d.
Qed.

(** As long as the device is not to be read from a ["device_map"] (either
    a device is given, or no ["device_map"] counts as true), the
    constructor returns an instance exactly when no device comes with a
    ["device_map"] that counts as true, [top_k] is positive and scaling has
    its factor; otherwise it raises [ValueError], for the first of these
    three that fails. An empty or absent [model_kwargs], or a
    ["device_map"] that counts as false, is no conflict. *)
Theorem init_outcome model' d token' top_k' fields sep scale cf thr kw h :
  given_device_map kw h && is_none d = false →
  ((∃ r, (__init__ model' d token' top_k' fields sep scale cf thr kw h).1
         = Ok r)
   ↔ given_device_map kw h && negb (is_none d) = false
     ∧ (0 < top_k')%Z
     ∧ (scale = true → is_Some cf))
  ∧ (∀ e, (__init__ model' d token' top_k' fields sep scale cf thr kw h).1
          = Raise e →
       e = ValueError
             (if given_device_map kw h && negb (is_none d)
              then device_and_device_map
              else if scale && is_none cf then calibration_factor_missing
              else top_k_not_positive)).
Proof.
  intros _.
  unfold __init__.
  pose proof (kwargs_or_empty_device_map kw h) as Hdm.
  destruct (kwargs_or_empty kw h) as [l h'] eqn:Hkw. simpl in Hdm.
  rewrite Hdm.
  destruct (given_device_map kw h && negb (is_none d)) eqn:Hc; simpl.
  { split; [|by inversion 1]. split; [by intros [? ?]|by intros [? _]]. }
  destruct scale, cf as [c|]; simpl;
    destruct (top_k' <=? 0)%Z eqn:Hk;
    try apply Z.leb_le in Hk; try apply Z.leb_gt in Hk; simpl.
  all: split; [|by inversion 1].
  all: split; [intros [r Hr]; try done|intros (_ & ? & Hcf)].
  all: try (split_and!; [done|lia|eauto]).
  all: try lia.
  all: try (by destruct (Hcf eq_refl)).
  all: eauto.
Qed.

(** A constructed instance is not warmed up, has a positive [top_k] and,
    when it scales, a calibration factor; warm-up keeps all of this but
    the first. Its device is read from the ["device_map"] when one is
    given, and resolved from the [device] argument otherwise. *)
Theorem init_establishes_invariant
    model' d token' top_k' fields sep scale cf thr kw h r h1 :
  __init__ model' d token' top_k' fields sep scale cf thr kw h = (Ok r, h1) →
  model r = None ∧ tokenizer r = None
  ∧ (0 < top_k r)%Z
  ∧ (scale_score r = true → is_Some (calibration_factor r))
  ∧ (∀ h2, (0 < top_k (warm_up r h2).1)%Z
           ∧ (scale_score (warm_up r h2).1 = true →
              is_Some (calibration_factor (warm_up r h2).1)))
  ∧ device r
    = (if given_device_map kw h
       then from_multiple_from_hf
              (default PNone (from_option (kwargs_at h) ∅ kw !! "device_map"))
       else resolve_device d).
Proof.
  intros H. destruct (init_ok_inv _ _ _ _ _ _ _ _ _ _ _ _ _ H)
    as (_ & Hk & Hs & _ & Hr).
  rewrite Hr. simpl. split_and!; try done.
Qed.

(** A constructed instance that was not warmed up refuses to rank a
    non-empty list: [run] raises [ComponentError] and scores nothing. *)
Theorem run_before_warm_up
    model' d token' top_k' fields sep scale cf thr kw h r h1
    query documents σ :
  __init__ model' d token' top_k' fields sep scale cf thr kw h = (Ok r, h1) →
  documents ≠ [] →
  run r query documents None None None None σ = (Raise ComponentError, σ).
Proof.
  intros H Hne. destruct (init_ok_inv _ _ _ _ _ _ _ _ _ _ _ _ _ H)
    as (_ & Hk & Hs & _ & Hr).
  rewrite Hr. unfold run. destruct documents as [|l0 ds]; [done|].
  unfold effective_top_k, effective_scale_score, effective_calibration_factor.
  simpl. apply Z.leb_gt in Hk. rewrite Hk.
  destruct scale; simpl; [|done]. by destruct (Hs eq_refl) as [c ->].
Qed.

(** Construction, warm-up, then a call without overrides: the call raises
    neither [ValueError] nor [ComponentError] and returns a result, as long
    as the scorer gives one logit per pair and the sort a permutation of
    the positions. *)
Theorem run_after_warm_up
    model' d token' top_k' fields sep scale cf thr kw h r h1 h2
    query documents σ :
  __init__ model' d token' top_k' fields sep scale cf thr kw h = (Ok r, h1) →
  ∃ forward tokenize,
    model (warm_up r h2).1 = Some forward
    ∧ tokenizer (warm_up r h2).1 = Some tokenize
    ∧ (length (forward (tokenize
                 (query_doc_pairs (warm_up r h2).1 query documents σ)))
       = length documents →
       torch_sort_descending
         (scores_of_call (warm_up r h2).1 forward tokenize query documents
            None None σ)
       ≡ₚ seq 0 (length
                   (scores_of_call (warm_up r h2).1 forward tokenize query
                      documents None None σ)) →
       ∃ out σ',
         run (warm_up r h2).1 query documents None None None None σ
         = (Ok out, σ')).
Proof.
  intros H. destruct (init_ok_inv _ _ _ _ _ _ _ _ _ _ _ _ _ H)
    as (_ & Hk & Hs & _ & Hr).
  assert (Hm : model r = None) by by rewrite Hr.
  unfold warm_up. rewrite Hm. simpl.
  eexists _, _. split_and!; [done|done|].
  intros Hlen Hperm.
  eapply run_succeeds; [| |done|done|exact Hlen|exact Hperm].
  - rewrite Hr. exact Hk.
  - rewrite Hr. unfold effective_scale_score, effective_calibration_factor.
    simpl. exact Hs.
Qed.

(** A second warm-up does nothing. *)
Theorem warm_up_idempotent self h :
  warm_up (warm_up self h).1 (warm_up self h).2 = warm_up self h.
Proof.
  unfold warm_up. destruct (model self) eqn:Hm; simpl; [|done].
  by rewrite Hm.
Qed.

(** Warm-up changes no ranking parameter, neither the device nor the
    telemetry data; in the store it touches the instance's own dictionary
    only, and there the key ["device_map"] only. *)
Theorem warm_up_frame self h :
  effective_top_k (warm_up self h).1 = effective_top_k self
  ∧ effective_scale_score (warm_up self h).1 = effective_scale_score self
  ∧ effective_calibration_factor (warm_up self h).1
    = effective_calibration_factor self
  ∧ effective_score_threshold (warm_up self h).1
    = effective_score_threshold self
  ∧ text_to_embed (warm_up self h).1 = text_to_embed self
  ∧ device (warm_up self h).1 = device self
  ∧ model_kwargs (warm_up self h).1 = model_kwargs self
  ∧ _get_telemetry_data (warm_up self h).1 = _get_telemetry_data self
  ∧ (∀ l, l ≠ model_kwargs self → (warm_up self h).2 !! l = h !! l)
  ∧ (∀ key, key ≠ "device_map" →
       kwargs_at (warm_up self h).2 (model_kwargs self) !! key
       = kwargs_at h (model_kwargs self) !! key).
Proof.
  unfold warm_up. destruct (model self); simpl; split_and!; try done.
  - intros l Hl. by rewrite lookup_insert_ne.
  - intros key Hkey. unfold kwargs_at at 1. rewrite lookup_insert_eq. simpl.
    by rewrite lookup_insert_ne.
Qed.

(** The instance keeps the dictionary it is given when that dictionary is
    not empty, so warm-up writes the placement into the caller's
    dictionary. Given no dictionary, or an empty one, the instance makes its
    own, and warm-up leaves every dictionary of the caller as it was. *)
Theorem init_kwargs_sharing
    model' d token' top_k' fields sep scale cf thr kw h r h1 :
  __init__ model' d token' top_k' fields sep scale cf thr kw h = (Ok r, h1) →
  (∀ l, kw = Some l → truthy (PDict (kwargs_at h l)) = true →
     model_kwargs r = l ∧ h1 = h
     ∧ kwargs_at (warm_up r h1).2 l !! "device_map" = Some (to_hf (device r)))
  ∧ ((kw = None
      ∨ (∃ l, kw = Some l ∧ truthy (PDict (kwargs_at h l)) = false)) →
     (model_kwargs r ∉ dom h)
     ∧ ∀ l, l ∈ dom h → (warm_up r h1).2 !! l = h !! l).
Proof.
  intros H. destruct (init_ok_inv _ _ _ _ _ _ _ _ _ _ _ _ _ H)
    as (_ & _ & _ & Hkw & Hr).
  assert (Hm : model r = None) by by rewrite Hr.
  split.
  - intros l -> Ht. unfold kwargs_or_empty in Hkw. rewrite Ht in Hkw.
    assert (model_kwargs r = l ∧ h1 = h) as [Hl ->] by by inversion Hkw.
    split_and!; try done.
    unfold warm_up. rewrite Hm. simpl. unfold kwargs_at at 1.
    rewrite Hl. rewrite lookup_insert_eq. simpl. by rewrite lookup_insert_eq.
  - intros Hcase.
    assert (Hf : model_kwargs r = fresh (dom h)
                 ∧ h1 = <[fresh (dom h) := ∅]> h).
    { unfold kwargs_or_empty in Hkw.
      destruct Hcase as [->|(l & -> & Ht)]; [|rewrite Ht in Hkw];
        by inversion Hkw. }
    destruct Hf as [Hl ->]. split.
    + rewrite Hl. apply is_fresh.
    + intros l Hin. unfold warm_up. rewrite Hm. simpl.
      assert (l ≠ fresh (dom h)).
      { intros ->. by apply is_fresh in Hin. }
      rewrite Hl. by rewrite !lookup_insert_ne.
Qed.

(** Valid arguments make the constructor return. *)
Lemma init_returns model' d token' top_k' fields sep scale cf thr kw h :
  given_device_map kw h && negb (is_none d) = false →
  (0 < top_k')%Z →
  (scale = true → is_Some cf) →
  ∃ r h1,
    __init__ model' d token' top_k' fields sep scale cf thr kw h = (Ok r, h1).
Proof.
  intros Hc Hk Hs. unfold __init__.
  pose proof (kwargs_or_empty_device_map kw h) as Hdm.
  destruct (kwargs_or_empty kw h) as [l h'] eqn:Hkw. simpl in Hdm.
  rewrite Hdm, Hc.
  assert (scale && is_none cf = false) as ->.
  { destruct scale; [|done]. by destruct (Hs eq_refl) as [c ->]. }
  apply Z.leb_gt in Hk. rewrite Hk. eauto.
Qed.

(** Importing the export of a valid instance whose [model_kwargs] hold no
    ["device_map"] that counts as true returns an instance that is not
    warmed up and has the same model name and ranking parameters; a string
    token is gone, any other token is kept, and the device is the one
    resolved from the exported device. *)
Theorem from_dict_of_to_dict_without_device_map self h :
  (0 < top_k self)%Z →
  (scale_score self = true → is_Some (calibration_factor self)) →
  get_truthy (kwargs_at h (model_kwargs self)) "device_map" = false →
  ∃ r h2,
    from_dict (to_dict self h).1 (to_dict self h).2 = (Ok r, h2)
    ∧ model r = None ∧ tokenizer r = None
    ∧ model_name_or_path r = model_name_or_path self
    ∧ top_k r = top_k self
    ∧ meta_fields_to_embed r = meta_fields_to_embed self
    ∧ embedding_separator r = embedding_separator self
    ∧ scale_score r = scale_score self
    ∧ calibration_factor r = calibration_factor self
    ∧ score_threshold r = score_threshold self
    ∧ token r = match token self with
                | TokenStr _ => TokenNone
                | t => t
                end
    ∧ device r
      = resolve_device (Some (device_from_dict (device_to_dict (device self)))).
Proof.
  intros Hk Hs Hdm. unfold from_dict, to_dict.
  cbn [fst snd init_parameters type ip_model_kwargs ip_device ip_model
       ip_token ip_top_k ip_meta_fields_to_embed ip_embedding_separator
       ip_scale_score ip_calibration_factor ip_score_threshold].
  rewrite String.eqb_refl. cbn [negb].
  match goal with
  | |- ∃ r h2, __init__ ?m ?d ?tk ?k ?f ?sp ?sc ?c ?t ?kw ?hh = _ ∧ _ =>
      assert (Hgd : given_device_map kw hh = false);
      [|destruct (init_returns m d tk k f sp sc c t kw hh) as (r & h2 & Hinit);
        [by rewrite Hgd|done|done|]]
  end.
  { unfold given_device_map.
    unfold kwargs_at at 1. rewrite lookup_insert_eq. cbn [default id].
    unfold kwargs_at at 1. rewrite lookup_insert_eq. cbn [default id].
    unfold deserialize_hf_model_kwargs, serialize_hf_model_kwargs.
    rewrite get_truthy_fmap by apply truthy_deserialize.
    by rewrite get_truthy_fmap by apply truthy_serialize. }
  exists r, h2. split; [exact Hinit|].
  destruct (init_ok_inv _ _ _ _ _ _ _ _ _ _ _ _ _ Hinit)
    as (_ & _ & _ & _ & Hr).
  rewrite Hgd in Hr. rewrite Hr. simpl. split_and!; done.
Qed.

(** An export never carries a string token. Producing it leaves every
    other dictionary of the store alone and keeps the keys of the
    instance's [model_kwargs]. *)
Theorem to_dict_effect self h :
  (∀ s, ip_token (init_parameters (to_dict self h).1) ≠ TokenStr s)
  ∧ (∀ l, l ≠ model_kwargs self → (to_dict self h).2 !! l = h !! l)
  ∧ dom (export_kwargs (to_dict self h).1 (to_dict self h).2)
    = dom (kwargs_at h (model_kwargs self)).
Proof.
  split_and!.
  - intros s. simpl. by destruct (token self).
  - intros l Hl. simpl. by rewrite lookup_insert_ne.
  - unfold export_kwargs, to_dict. simpl. unfold kwargs_at at 1.
    rewrite lookup_insert_eq. simpl. unfold serialize_hf_model_kwargs.
    apply dom_fmap_L.
Qed.

(** The export holds the instance's own dictionary, not a copy: an export
    taken before warm-up, read after warm-up, shows the placement that
    warm-up wrote. *)
Theorem export_shares_model_kwargs self h :
  model self = None →
  export_kwargs (to_dict self h).1 (warm_up self (to_dict self h).2).2
    !! "device_map"
  = Some (to_hf (device self)).
Proof.
  intros Hm. unfold export_kwargs, warm_up. rewrite Hm. simpl.
  unfold kwargs_at at 1. rewrite lookup_insert_eq. simpl.
  by rewrite lookup_insert_eq.
Qed.

(** *** Further properties of the result *)

(** The number of documents a successful call on a non-empty list returns
    is the smaller of the effective [top_k] and the number of documents
    whose score reaches the effective threshold (all of them without
    one). *)
Theorem run_result_length
    self query documents k' s' c' t' σ out σ' forward tokenize :
  documents ≠ [] →
  run self query documents k' s' c' t' σ = (Ok out, σ') →
  model self = Some forward →
  tokenizer self = Some tokenize →
  length (forward (tokenize (query_doc_pairs self query documents σ)))
    = length documents →
  torch_sort_descending
      (scores_of_call self forward tokenize query documents s' c' σ)
    ≡ₚ seq 0 (length
                (scores_of_call self forward tokenize query documents s' c' σ)) →
  length out
  = (Z.to_nat (effective_top_k self k')
     `min` length (apply_threshold σ' (effective_score_threshold self t')
                     documents))%nat.
Proof.
  intros Hne Hrun Hm Ht Hlen Hperm.
  destruct (run_ranked_inv _ _ _ _ _ _ _ _ _ _ _ _ Hne Hrun Hm Ht Hlen Hperm)
    as (ranked & Hrp & -> & _ & _).
  rewrite length_take.
  by rewrite (apply_threshold_Permutation _ _ _ _ Hrp).
Qed.

(** When the scorer gives one logit per pair and the sort a permutation of
    the positions, a call returns a result exactly when the list is empty,
    or the effective [top_k] is positive, scaling has its factor and model
    and tokenizer are loaded. *)
Theorem run_ok_iff self query documents k' s' c' t' σ :
  (∀ forward tokenize,
     model self = Some forward → tokenizer self = Some tokenize →
     length (forward (tokenize (query_doc_pairs self query documents σ)))
       = length documents
     ∧ torch_sort_descending
         (scores_of_call self forward tokenize query documents s' c' σ)
       ≡ₚ seq 0 (length
                   (scores_of_call self forward tokenize query documents
                      s' c' σ))) →
  (∃ out σ', run self query documents k' s' c' t' σ = (Ok out, σ'))
  ↔ documents = []
    ∨ ((0 < effective_top_k self k')%Z
       ∧ (effective_scale_score self s' = true →
          is_Some (effective_calibration_factor self c'))
       ∧ is_Some (model self) ∧ is_Some (tokenizer self)).
Proof.
  intros Hcontract. split.
  - intros (out & σ' & Hrun).
    destruct (decide (documents = [])) as [->|Hne]; [by left|]. right.
    destruct (run_ok_inv _ _ _ _ _ _ _ _ _ _ Hne Hrun)
      as (Hk & Hs & fw & tk & _ & Hm & Ht & _).
    rewrite Hm, Ht. split_and!; eauto.
  - intros [->|(Hk & Hs & [fw Hm] & [tk Ht])]; [simpl; eauto|].
    destruct (Hcontract fw tk Hm Ht) as [Hlen Hperm].
    by eapply run_succeeds.
Qed.

End TransformersSimilarityRanker.

Arguments mkRanker {ComponentDevice Features}.
Arguments model_name_or_path {ComponentDevice Features}.
Arguments model {ComponentDevice Features}.
Arguments tokenizer {ComponentDevice Features}.
Arguments top_k {ComponentDevice Features}.
Arguments token {ComponentDevice Features}.
Arguments meta_fields_to_embed {ComponentDevice Features}.
Arguments embedding_separator {ComponentDevice Features}.
Arguments scale_score {ComponentDevice Features}.
Arguments calibration_factor {ComponentDevice Features}.
Arguments score_threshold {ComponentDevice Features}.
Arguments model_kwargs {ComponentDevice Features}.
Arguments device {ComponentDevice Features}.
Arguments __init__ {ComponentDevice} resolve_device from_multiple_from_hf
  {Features}.
Arguments warm_up {ComponentDevice} to_hf {Features}.
Arguments to_dict {ComponentDevice} device_to_dict {Features}.
Arguments from_dict {ComponentDevice} resolve_device from_multiple_from_hf
  device_from_dict {Features}.
Arguments run {ComponentDevice Features}.
Arguments query_doc_pairs {ComponentDevice Features}.
Arguments text_to_embed {ComponentDevice Features}.
Arguments meta_values_to_embed {ComponentDevice Features}.
Arguments scores_of_call {ComponentDevice Features}.
Arguments effective_top_k {ComponentDevice Features}.
Arguments effective_scale_score {ComponentDevice Features}.
Arguments effective_calibration_factor {ComponentDevice Features}.
Arguments effective_score_threshold {ComponentDevice Features}.
Arguments with_parameters {ComponentDevice Features}.
Arguments _get_telemetry_data {ComponentDevice Features}.

(** ** A concrete setting

    Stand-ins for the imported operations, used to run the definitions
    above on the scenarios of the test-suite. *)

Module Sample.

(** A device is named by its Hugging Face placement. *)
Definition resolve_device (d : option Any) : Any := default (PStr "cpu") d.
Definition from_multiple_from_hf (device_map : Any) : Any := device_map.
Definition to_hf (d : Any) : Any := d.
Definition device_to_dict (d : Any) : Any :=
  match d with
  | PDict _ => PDict {[ "type" := PStr "multiple"; "device_map" := d ]}
  | _ => PDict {[ "type" := PStr "single"; "device" := d ]}
  end.
Definition device_from_dict (v : Any) : Any :=
  match v with
  | PDict m =>
      match m !! "device", m !! "device_map" with
      | Some d, _ => d
      | None, Some d => d
      | None, None => PStr "cpu"
      end
  | _ => PStr "cpu"
  end.

(** The tokenizer keeps the pairs; a model scores a pair by the length of
    its document text, or, as the mocked models of the test-suite do,
    returns fixed logits. *)
Definition tokenize (name : string) (t : Token)
  : list (string * string) → list (string * string) := id.
Definition length_model (name : string) (t : Token) (kwargs : gmap string Any)
  : list (string * string) → list Q :=
  map (λ p, inject_Z (Z.of_nat (String.length p.2))).
Definition fixed_logits (logits : list Q)
  : list (string * string) → list Q := λ _, logits.

(** A rational squashing function into (0, 1). *)
Definition sigmoid (x : Q) : Q :=
  Qred ((1 + x / (1 + (if Qle_bool 0 x then x else - x))) / 2)%Q.

(** A sort that meets the contract of [torch.sort]: it returns the
    positions in descending order of value and keeps, among equal values,
    the earlier position first. *)
Fixpoint insert_index (before : Q → Q → bool) (scores : list Q) (i : nat)
    (idxs : list nat) : list nat :=
  match idxs with
  | [] => [i]
  | j :: rest =>
      match scores !! i, scores !! j with
      | Some a, Some b =>
          if before a b then i :: idxs
          else j :: insert_index before scores i rest
      | _, _ => i :: idxs
      end
  end.

Definition stable_sort_descending (scores : list Q) : list nat :=
  foldr (insert_index (λ a b, Qle_bool b a) scores) []
    (seq 0 (length scores)).

(** An instance as the constructor leaves it with default arguments
    except [top_k], [scale_score], [score_threshold] and the fields to
    embed, then given a model and a tokenizer. *)
Definition ranker (forward : list (string * string) → list Q) (top_k' : Z)
    (scale_score' : bool) (score_threshold' : option Q)
    (meta_fields_to_embed' : list string)
  : Ranker Any (list (string * string)) :=
  {| model_name_or_path := "model";
     model := Some forward;
     tokenizer := Some (tokenize "model" TokenNone);
     top_k := top_k';
     token := TokenNone;
     meta_fields_to_embed := meta_fields_to_embed';
     embedding_separator := newline;
     scale_score := scale_score';
     calibration_factor := Some 1%Q;
     score_threshold := score_threshold';
     model_kwargs := 0;
     device := PStr "cpu" |}.

Definition document (text : string) : Document :=
  {| content := Some text; meta := ∅; score := None |}.

(** [[Document(content="Paris"), Document(content="Berlin")]]. *)
Definition paris_berlin : gmap loc Document :=
  {[ 0 := document "Paris"; 1 := document "Berlin" ]}.



(** The documents of [test_prefix] and [test_embed_meta]. *)
Definition numbered (i : string) : Document :=
  {| content := Some ("document number " +:+ i);
     meta := {[ "meta_field" := MStr ("meta_value " +:+ i) ]};
     score := None |}.

Definition numbered_documents : gmap loc Document :=
  {[ 0 := numbered "0"; 1 := numbered "1" ]}.

(** [{"layer_1": 1, "classifier": "cpu"}], the device map of
    [test_device_map_dict]. *)
Definition layer_map : Any :=
  PDict {[ "layer_1" := PInt 1; "classifier" := PStr "cpu" ]}.

(** The store holding the caller's [{"device_map": layer_map}]. *)
Definition layer_map_kwargs : gmap loc (gmap string Any) :=
  {[ 0 := {[ "device_map" := layer_map ]} ]}.

(** The instance [TransformersSimilarityRanker("model",
    model_kwargs={"device_map": layer_map})] before any warm-up. *)
Definition layer_map_ranker : Ranker Any (list (string * string)) :=
  {| model_name_or_path := "model";
     model := None;
     tokenizer := None;
     top_k := 10;
     token := TokenNone;
     meta_fields_to_embed := [];
     embedding_separator := newline;
     scale_score := true;
     calibration_factor := Some 1%Q;
     score_threshold := None;
     model_kwargs := 0;
     device := layer_map |}.

(** The instance [TransformersSimilarityRanker()] before any warm-up. *)
Definition default_ranker : Ranker Any (list (string * string)) :=
  {| model_name_or_path := "cross-encoder/ms-marco-MiniLM-L-6-v2";
     model := None;
     tokenizer := None;
     top_k := 10;
     token := TokenNone;
     meta_fields_to_embed := [];
     embedding_separator := newline;
     scale_score := true;
     calibration_factor := Some 1%Q;
     score_threshold := None;
     model_kwargs := 0;
     device := PStr "cpu" |}.

Ltac live :=
  let Hl := fresh in
  intros ? Hl;
  repeat (apply elem_of_cons in Hl as [->|Hl]; [by eexists|]);
  by apply elem_of_nil in Hl.

Ltac decided := apply (bool_decide_unpack _); vm_compute; exact I.

(** *** The scenarios of the specification *)

Example default_construction :
  __init__ resolve_device from_multiple_from_hf (Features := list (string * string))
    "cross-encoder/ms-marco-MiniLM-L-6-v2" None TokenNone 10 None newline true
    (Some 1%Q) None None ∅
  = (Ok default_ranker, {[ 0 := ∅ ]}).
Proof. vm_compute. reflexivity. Qed.

Example layer_map_construction :
  __init__ resolve_device from_multiple_from_hf (Features := list (string * string))
    "model" None TokenNone 10 None newline true (Some 1%Q) None (Some 0)
    layer_map_kwargs
  = (Ok layer_map_ranker, layer_map_kwargs).
Proof. vm_compute. reflexivity. Qed.

Example berlin_before_paris :
  (run sigmoid stable_sort_descending
     (ranker (length_model "model" TokenNone ∅) 10 true None [])
     "City in Germany" [0; 1] None None None None paris_berlin).1
  = Ok [1; 0].
Proof. vm_compute. reflexivity. Qed.

Example empty_input σ :
  run sigmoid stable_sort_descending default_ranker "City in Germany" []
    None None None None σ
  = (Ok [], σ).
Proof. reflexivity. Qed.

Example not_warmed_up :
  run sigmoid stable_sort_descending default_ranker "query" [0]
    None None None None {[ 0 := document "document" ]}
  = (Raise ComponentError, {[ 0 := document "document" ]}).
Proof. vm_compute. reflexivity. Qed.

Example metadata_fusion :
  query_doc_pairs
    (ranker (fixed_logits [0%Q; 0%Q]) 10 true None ["meta_field"])
    "test" [0; 1] numbered_documents
  = [("test", "meta_value 0" +:+ newline +:+ "document number 0");
     ("test", "meta_value 1" +:+ newline +:+ "document number 1")].
Proof. vm_compute. reflexivity. Qed.


(** *** The properties at concrete inputs *)

(** The two cities with [top_k=1]: Paris is cut from the result and
    carries its score all the same. *)
Lemma run_scores_every_document_witness :
  let r := ranker (length_model "model" TokenNone ∅) 10 true None [] in
  let call := run sigmoid stable_sort_descending r "City in Germany" [0; 1]
                (Some 1%Z) None None None paris_berlin in
  call.1 = Ok [1]
  ∧ score_of call.2 0 = Some (11 # 12)
  ∧ score_of call.2 1 = Some (13 # 14)
  ∧ dom call.2 = dom paris_berlin.
Proof.
  intros r call.
  assert (Hrun : run sigmoid stable_sort_descending r "City in Germany" [0; 1]
                   (Some 1%Z) None None None paris_berlin = (Ok [1], call.2)).
  { vm_compute. reflexivity. }
  destruct (run_scores_every_document _ _ sigmoid stable_sort_descending r
              "City in Germany" [0; 1] (Some 1%Z) None None None paris_berlin
              [1] call.2 (length_model "model" TokenNone ∅)
              (tokenize "model" TokenNone) Hrun eq_refl eq_refl)
    as (_ & Hscore & _ & Hdom & _).
  - live.
  - reflexivity.
  - vm_compute. decided.
  - assert (Hnd : NoDup [0; 1]) by decided.
    split; [vm_compute; reflexivity|]. split_and!.
    + destruct (Hscore Hnd 0 0 eq_refl) as [_ Heq].
      etrans; [exact Heq|]. vm_compute. reflexivity.
    + destruct (Hscore Hnd 1 1 eq_refl) as [_ Heq].
      etrans; [exact Heq|]. vm_compute. reflexivity.
    + exact Hdom.
Defined.

(** The threshold scenario: [scale_score=False], [score_threshold=0.1],
    logits 0.955 and 0.001; one document is returned. *)
Lemma run_threshold_top_k_witness :
  let r := ranker (fixed_logits [955 # 1000; 1 # 1000]) 10 false
             (Some (1 # 10)) [] in
  let call := run sigmoid stable_sort_descending r "test" [0; 1]
                None None None None numbered_documents in
  call.1 = Ok [0]
  ∧ (∃ s, score_of call.2 0 = Some s ∧ (1 # 10 <= s)%Q)
  ∧ (length [0] ≤ Z.to_nat 10 `min` 1)%nat.
Proof.
  intros r call.
  assert (Hrun : run sigmoid stable_sort_descending r "test" [0; 1]
                   None None None None numbered_documents = (Ok [0], call.2)).
  { vm_compute. reflexivity. }
  destruct (run_threshold_top_k _ _ sigmoid stable_sort_descending r
              "test" [0; 1] None None None None numbered_documents
              [0] call.2 (fixed_logits [955 # 1000; 1 # 1000])
              (tokenize "model" TokenNone)) as (_ & _ & Hthr & Hlen);
    try done.
  - split.
    + vm_compute. decided.
    + vm_compute. repeat constructor.
  - split; [vm_compute; reflexivity|]. split.
    + apply (Hthr (1 # 10) eq_refl 0). left.
    + exact Hlen.
Defined.

(** The unscaled scenario: [scale_score=False], logits -10.6859 and
    -8.9874 are the scores, the larger first. *)
Lemma run_score_calibration_witness :
  let r := ranker (fixed_logits [-106859 # 10000; -89874 # 10000]) 10 false
             None [] in
  let call := run sigmoid stable_sort_descending r "test" [0; 1]
                None None None None numbered_documents in
  call.1 = Ok [1; 0]
  ∧ score_of call.2 0 = Some (-106859 # 10000)
  ∧ score_of call.2 1 = Some (-89874 # 10000).
Proof.
  intros r call.
  assert (Hrun : run sigmoid stable_sort_descending r "test" [0; 1]
                   None None None None numbered_documents
                 = (Ok [1; 0], call.2)).
  { vm_compute. reflexivity. }
  assert (Hne : [0; 1] ≠ @nil loc) by done.
  destruct (run_score_calibration _ _ sigmoid stable_sort_descending r
              "test" [0; 1] None None None None numbered_documents
              [1; 0] call.2
              (fixed_logits [-106859 # 10000; -89874 # 10000])
              (tokenize "model" TokenNone) Hne Hrun eq_refl eq_refl)
    as (_ & Hraw & _).
  - live.
  - reflexivity.
  - vm_compute. decided.
  - destruct (Hraw eq_refl) as (_ & _ & Hscore).
    assert (Hnd : NoDup [0; 1]) by decided.
    split; [vm_compute; reflexivity|]. split.
    + apply (Hscore Hnd 0 0). all: reflexivity.
    + apply (Hscore Hnd 1 1). all: reflexivity.
Defined.



(** The instance built with a device map: its export is refused on
    import. *)
Lemma from_dict_of_to_dict_device_map_raises_witness :
  get_truthy (kwargs_at layer_map_kwargs (model_kwargs layer_map_ranker))
    "device_map" = true
  ∧ (from_dict resolve_device from_multiple_from_hf device_from_dict
       (Features := list (string * string))
       (to_dict device_to_dict layer_map_ranker layer_map_kwargs).1
       (to_dict device_to_dict layer_map_ranker layer_map_kwargs).2).1
    = Raise (ValueError device_and_device_map).
Proof.
  assert (H : get_truthy
                (kwargs_at layer_map_kwargs (model_kwargs layer_map_ranker))
                "device_map" = true) by (vm_compute; reflexivity).
  split; [exact H|].
  exact (from_dict_of_to_dict_device_map_raises _ resolve_device
           from_multiple_from_hf device_to_dict device_from_dict _
           layer_map_ranker layer_map_kwargs H).
Defined.

(** The default instance: the export has no ["device_map"] before
    [warm_up] and ["cpu"] under it afterwards. *)
Lemma warm_up_writes_device_map_witness :
  let h := {[ 0 := ∅ ]} : gmap loc (gmap string Any) in
  let e0 := (to_dict device_to_dict default_ranker h).1 in
  let h0 := (to_dict device_to_dict default_ranker h).2 in
  let warmed := warm_up to_hf length_model tokenize default_ranker h0 in
  let e1 := (to_dict device_to_dict warmed.1 warmed.2).1 in
  let h2 := (to_dict device_to_dict warmed.1 warmed.2).2 in
  model default_ranker = None
  ∧ export_kwargs e0 h0 !! "device_map" = None
  ∧ export_kwargs e1 h2 !! "device_map" = Some (PStr "cpu")
  ∧ export_value e0 h0 ≠ export_value e1 h2.
Proof.
  intros h e0 h0 warmed e1 h2.
  destruct (warm_up_writes_device_map _ to_hf device_to_dict _ length_model
              tokenize default_ranker h eq_refl)
    as (_ & _ & _ & Hafter & Hbefore & _).
  destruct (Hbefore eq_refl) as [Hnone Hdiff].
  split_and!; [reflexivity|exact Hnone|exact Hafter|exact Hdiff].
Defined.

(** C10, counterexample. The instance built with a device map in
    [model_kwargs] was never warmed up and its export already has the
    ["device_map"] entry; [warm_up] writes the same placement again and the
    export read afterwards is the same. *)
Lemma export_has_device_map_before_warm_up :
  let h := layer_map_kwargs in
  let e0 := (to_dict device_to_dict layer_map_ranker h).1 in
  let h0 := (to_dict device_to_dict layer_map_ranker h).2 in
  let warmed := warm_up to_hf length_model tokenize layer_map_ranker h0 in
  let e1 := (to_dict device_to_dict warmed.1 warmed.2).1 in
  let h2 := (to_dict device_to_dict warmed.1 warmed.2).2 in
  __init__ resolve_device from_multiple_from_hf
    (Features := list (string * string))
    "model" None TokenNone 10 None newline true (Some 1%Q) None (Some 0)
    layer_map_kwargs
  = (Ok layer_map_ranker, layer_map_kwargs)
  ∧ model layer_map_ranker = None
  ∧ export_kwargs e0 h0 !! "device_map" = Some layer_map
  ∧ export_kwargs e1 h2 !! "device_map" = Some layer_map
  ∧ export_value e0 h0 = export_value e1 h2.
Proof. vm_compute. split_and!; reflexivity. Qed.

(** C7. On the input of [test_prefix] the pairs handed to the tokenizer are
    the query and the document text as they are; nothing is prepended,
    where the test expects ["query_instruction: test"] and
    ["document_instruction: document number 0"]. *)
Theorem query_doc_pairs_carry_no_prefix :
  let pairs := query_doc_pairs (ranker (fixed_logits [0%Q; 0%Q]) 10 true None [])
                 "test" [0; 1] numbered_documents in
  pairs = [("test", "document number 0"); ("test", "document number 1")]
  ∧ pairs ≠ [("query_instruction: test",
              "document_instruction: document number 0");
             ("query_instruction: test",
              "document_instruction: document number 1")].
Proof. vm_compute. split; [reflexivity|discriminate]. Qed.

(** C9. A [ValueError] is raised at construction although [top_k] is
    positive and a calibration factor is given, when a device comes with a
    device map; and a call given [top_k=0] raises nothing, returning the
    first [self.top_k] documents. A call given [top_k=-1] does raise and
    leaves the documents without a score. *)
Theorem value_error_not_tied_to_ranking_parameters :
  (__init__ resolve_device from_multiple_from_hf
     (Features := list (string * string))
     "model" (Some (PStr "cuda")) TokenNone 10 None newline true (Some 1%Q)
     None (Some 0) {[ 0 := {[ "device_map" := PStr "cpu" ]} ]}).1
  = Raise (ValueError device_and_device_map)
  ∧ (run sigmoid stable_sort_descending
       (ranker (length_model "model" TokenNone ∅) 10 true None [])
       "City in Germany" [0; 1] (Some 0%Z) None None None paris_berlin).1
    = Ok [1; 0]
  ∧ run sigmoid stable_sort_descending
      (ranker (length_model "model" TokenNone ∅) 10 true None [])
      "City in Germany" [0; 1] (Some (-1)%Z) None None None paris_berlin
    = (Raise (ValueError top_k_not_positive), paris_berlin).
Proof. vm_compute. split_and!; reflexivity. Qed.

(** *** The further properties at concrete inputs *)

(** The two cities ranked by a warmed-up default instance. *)
Definition cities_ranker : Ranker Any (list (string * string)) :=
  ranker (length_model "model" TokenNone ∅) 10 true None [].

(** [top_k=-1] on the two cities raises [ValueError]. *)
Lemma run_value_error_iff_witness :
  [0; 1] ≠ @nil loc
  ∧ ∃ e σ', run sigmoid stable_sort_descending cities_ranker "City in Germany"
              [0; 1] (Some (-1)%Z) None None None paris_berlin
            = (Raise (ValueError e), σ').
Proof.
  assert (Hne : [0; 1] ≠ @nil loc) by done.
  split; [exact Hne|].
  apply (run_value_error_iff _ _ sigmoid stable_sort_descending cities_ranker
           "City in Germany" [0; 1] (Some (-1)%Z) None None None paris_berlin
           Hne).
  left. vm_compute. discriminate.
Defined.

(** A call before warm-up raises and leaves the document without score. *)
Lemma run_error_leaves_documents_witness :
  let σ := {[ 0 := document "document" ]} : gmap loc Document in
  let call := run sigmoid stable_sort_descending default_ranker "query" [0]
                None None None None σ in
  call.1 = Raise ComponentError ∧ call.2 = σ.
Proof.
  intros σ call. split; [vm_compute; reflexivity|].
  apply (run_error_leaves_documents _ _ sigmoid stable_sort_descending
           default_ranker "query" [0] None None None None σ ComponentError
           call.2).
  - vm_compute. reflexivity.
  - discriminate.
Defined.

(** Ranking the two cities a second time changes nothing. *)
Lemma run_again_same_witness :
  let call := run sigmoid stable_sort_descending cities_ranker
                "City in Germany" [0; 1] None None None None paris_berlin in
  call.1 = Ok [1; 0]
  ∧ run sigmoid stable_sort_descending cities_ranker "City in Germany" [0; 1]
      None None None None call.2
    = call.
Proof.
  intros call. split; [vm_compute; reflexivity|].
  rewrite (surjective_pairing call) at 2.
  apply (run_again_same _ _ sigmoid stable_sort_descending cities_ranker
           "City in Germany" [0; 1] None None None None paris_berlin).
  apply surjective_pairing.
Defined.

(** [top_k=1] returns the first document of what [top_k=2] returns. *)
Lemma run_top_k_prefix_witness :
  let call1 := run sigmoid stable_sort_descending cities_ranker
                 "City in Germany" [0; 1] (Some 1%Z) None None None
                 paris_berlin in
  let call2 := run sigmoid stable_sort_descending cities_ranker
                 "City in Germany" [0; 1] (Some 2%Z) None None None
                 paris_berlin in
  call1.1 = Ok [1] ∧ call2.1 = Ok [1; 0]
  ∧ call1.2 = call2.2 ∧ [1] = take (Z.to_nat 1) [1; 0].
Proof.
  intros call1 call2.
  split; [vm_compute; reflexivity|]. split; [vm_compute; reflexivity|].
  apply (run_top_k_prefix _ _ sigmoid stable_sort_descending cities_ranker
           "City in Germany" [0; 1] 1%Z 2%Z None None None paris_berlin
           [1] [1; 0] call1.2 call2.2).
  - lia.
  - vm_compute. reflexivity.
  - vm_compute. reflexivity.
Defined.

(** Both cities are returned, each once. *)
Lemma run_returns_input_documents_witness :
  let call := run sigmoid stable_sort_descending cities_ranker
                "City in Germany" [0; 1] None None None None paris_berlin in
  call.1 = Ok [1; 0] ∧ [1; 0] ⊆+ [0; 1] ∧ [1; 0] ≡ₚ [0; 1].
Proof.
  intros call. split; [vm_compute; reflexivity|].
  destruct (run_returns_input_documents _ _ sigmoid stable_sort_descending
              cities_ranker "City in Germany" [0; 1] None None None None
              paris_berlin [1; 0] call.2 (length_model "model" TokenNone ∅)
              (tokenize "model" TokenNone)) as [Hsub Hperm].
  - vm_compute. reflexivity.
  - reflexivity.
  - reflexivity.
  - reflexivity.
  - vm_compute. decided.
  - split; [exact Hsub|]. apply Hperm; [reflexivity|]. vm_compute. lia.
Defined.

(** With a threshold of 10 and logits 0.955 and 0.001 nothing is
    returned. *)
Lemma run_result_empty_iff_witness :
  let r := ranker (fixed_logits [955 # 1000; 1 # 1000]) 10 false
             (Some 10%Q) [] in
  let call := run sigmoid stable_sort_descending r "test" [0; 1]
                None None None None numbered_documents in
  call.1 = Ok []
  ∧ ∃ t, effective_score_threshold r None = Some t
         ∧ ∀ l, l ∈ [0; 1] → ∃ s, score_of call.2 l = Some s ∧ (s < t)%Q.
Proof.
  intros r call. split; [vm_compute; reflexivity|].
  assert (Hne : [0; 1] ≠ @nil loc) by done.
  apply (run_result_empty_iff _ _ sigmoid stable_sort_descending r "test"
           [0; 1] None None None None numbered_documents [] call.2
           (fixed_logits [955 # 1000; 1 # 1000]) (tokenize "model" TokenNone)
           Hne).
  - vm_compute. reflexivity.
  - reflexivity.
  - reflexivity.
  - live.
  - reflexivity.
  - vm_compute. decided.
  - reflexivity.
Defined.

(** [top_k=1], [scale_score=True], [calibration_factor=2.0] and
    [score_threshold=0.1] given to the call, or stored on the instance. *)
Lemma run_override_as_stored_witness :
  run sigmoid stable_sort_descending cities_ranker "City in Germany" [0; 1]
    (Some 1%Z) (Some true) (Some 2%Q) (Some (1 # 10)) paris_berlin
  = run sigmoid stable_sort_descending
      (with_parameters cities_ranker 1 true (Some 2%Q) (Some (1 # 10)))
      "City in Germany" [0; 1] None None None None paris_berlin.
Proof.
  apply (run_override_as_stored _ _ sigmoid stable_sort_descending
           cities_ranker "City in Germany" [0; 1] 1%Z 2%Q (1 # 10)
           paris_berlin); [lia|vm_compute; discriminate..].
Defined.

(** A document without content whose configured fields are missing or
    false gives the empty text. *)
Lemma text_to_embed_without_meta_witness :
  text_to_embed
    (ranker (fixed_logits []) 10 true None ["flag"; "missing"])
    {| content := None; meta := {[ "flag" := MBool false ]}; score := None |}
  = "".
Proof.
  apply (text_to_embed_without_meta _ _
           (ranker (fixed_logits []) 10 true None ["flag"; "missing"])
           {| content := None; meta := {[ "flag" := MBool false ]};
              score := None |}).
  intros key Hkey.
  apply elem_of_cons in Hkey as [->|Hkey]; [vm_compute; reflexivity|].
  apply elem_of_cons in Hkey as [->|Hkey]; [vm_compute; exact I|].
  by apply elem_of_nil in Hkey.
Defined.

(** A score and a key that is not configured do not change the text. *)
Lemma text_to_embed_configured_keys_witness :
  text_to_embed (ranker (fixed_logits []) 10 true None ["meta_field"])
    (numbered "0")
  = text_to_embed (ranker (fixed_logits []) 10 true None ["meta_field"])
      {| content := Some "document number 0";
         meta := {[ "meta_field" := MStr "meta_value 0";
                    "other" := MInt 7 ]};
         score := Some 1%Q |}.
Proof.
  apply (text_to_embed_configured_keys _ _
           (ranker (fixed_logits []) 10 true None ["meta_field"])).
  - reflexivity.
  - intros key Hkey.
    apply elem_of_cons in Hkey as [->|Hkey]; [vm_compute; reflexivity|].
    by apply elem_of_nil in Hkey.
Defined.

(** The instance built with a device map: not warmed up, [top_k] 10, the
    device read from the map. *)
Lemma init_establishes_invariant_witness :
  model layer_map_ranker = None
  ∧ (0 < top_k layer_map_ranker)%Z
  ∧ device layer_map_ranker = from_multiple_from_hf layer_map.
Proof.
  destruct (init_establishes_invariant _ resolve_device from_multiple_from_hf
              to_hf _ length_model tokenize _ _ _ _ _ _ _ _ _ _ _ _ _
              layer_map_construction) as (Hm & _ & Hk & _ & _ & Hd).
  split_and!; [exact Hm|exact Hk|].
  etrans; [exact Hd|]. vm_compute. reflexivity.
Defined.

(** The default instance before warm-up refuses to rank. *)
Lemma run_before_warm_up_witness :
  [0] ≠ @nil loc
  ∧ run sigmoid stable_sort_descending default_ranker "query" [0]
      None None None None {[ 0 := document "document" ]}
    = (Raise ComponentError, {[ 0 := document "document" ]}).
Proof.
  assert (Hne : [0] ≠ @nil loc) by done.
  split; [exact Hne|].
  exact (run_before_warm_up _ resolve_device from_multiple_from_hf _ sigmoid
           stable_sort_descending _ _ _ _ _ _ _ _ _ _ _ _ _ "query" [0]
           {[ 0 := document "document" ]} default_construction Hne).
Defined.

(** The default instance, warmed up, ranks the two cities. *)
Lemma run_after_warm_up_witness :
  ∃ out σ',
    run sigmoid stable_sort_descending
      (warm_up to_hf length_model tokenize default_ranker {[ 0 := ∅ ]}).1
      "City in Germany" [0; 1] None None None None paris_berlin
    = (Ok out, σ').
Proof.
  destruct (run_after_warm_up _ resolve_device from_multiple_from_hf to_hf _
              length_model tokenize sigmoid stable_sort_descending
              _ _ _ _ _ _ _ _ _ _ _ _ _ {[ 0 := ∅ ]}
              "City in Germany" [0; 1] paris_berlin default_construction)
    as (fw & tk & Hm & Ht & Hrun).
  simpl in Hm, Ht. inversion Hm; subst fw. inversion Ht; subst tk.
  apply Hrun.
  - reflexivity.
  - vm_compute. decided.
Defined.

(** The instance built with a device map keeps the caller's dictionary,
    and warm-up writes into it. *)
Lemma init_kwargs_sharing_witness :
  truthy (PDict (kwargs_at layer_map_kwargs 0)) = true
  ∧ model_kwargs layer_map_ranker = 0
  ∧ kwargs_at
      (warm_up to_hf length_model tokenize layer_map_ranker
         layer_map_kwargs).2 0 !! "device_map"
    = Some layer_map.
Proof.
  assert (Ht : truthy (PDict (kwargs_at layer_map_kwargs 0)) = true)
    by (vm_compute; reflexivity).
  destruct (init_kwargs_sharing _ resolve_device from_multiple_from_hf
              to_hf _ length_model tokenize _ _ _ _ _ _ _ _ _ _ _ _ _
              layer_map_construction) as [Hshare _].
  destruct (Hshare 0 eq_refl Ht) as (Hl & _ & Hdm).
  split_and!; [exact Ht|exact Hl|exact Hdm].
Defined.

(** The default instance survives export and import. *)
Lemma from_dict_of_to_dict_without_device_map_witness :
  ∃ r h2,
    from_dict resolve_device from_multiple_from_hf device_from_dict
      (Features := list (string * string))
      (to_dict device_to_dict default_ranker {[ 0 := ∅ ]}).1
      (to_dict device_to_dict default_ranker {[ 0 := ∅ ]}).2
    = (Ok r, h2)
    ∧ top_k r = 10%Z ∧ scale_score r = true
    ∧ calibration_factor r = Some 1%Q.
Proof.
  destruct (from_dict_of_to_dict_without_device_map _ resolve_device
              from_multiple_from_hf device_to_dict device_from_dict _
              default_ranker {[ 0 := ∅ ]})
    as (r & h2 & Hfrom & _ & _ & _ & Hk & _ & _ & Hs & Hc & _).
  - reflexivity.
  - intros _. by eexists.
  - reflexivity.
  - exists r, h2. split_and!; [exact Hfrom|exact Hk|exact Hs|exact Hc].
Defined.

(** The export of the default instance, taken before warm-up and read
    after it, shows ["cpu"] under ["device_map"]. *)
Lemma export_shares_model_kwargs_witness :
  model default_ranker = None
  ∧ export_kwargs (to_dict device_to_dict default_ranker {[ 0 := ∅ ]}).1
      (warm_up to_hf length_model tokenize default_ranker
         (to_dict device_to_dict default_ranker {[ 0 := ∅ ]}).2).2
      !! "device_map"
    = Some (PStr "cpu").
Proof.
  split; [reflexivity|].
  exact (export_shares_model_kwargs _ to_hf device_to_dict _ length_model
           tokenize default_ranker {[ 0 := ∅ ]} eq_refl).
Defined.

(** [top_k=1] on the two cities returns one document. *)
Lemma run_result_length_witness :
  let call := run sigmoid stable_sort_descending cities_ranker
                "City in Germany" [0; 1] (Some 1%Z) None None None
                paris_berlin in
  call.1 = Ok [1] ∧ length [1] = (Z.to_nat 1 `min` length [0; 1])%nat.
Proof.
  intros call. split; [vm_compute; reflexivity|].
  assert (Hne : [0; 1] ≠ @nil loc) by done.
  apply (run_result_length _ _ sigmoid stable_sort_descending cities_ranker
           "City in Germany" [0; 1] (Some 1%Z) None None None paris_berlin
           [1] call.2 (length_model "model" TokenNone ∅)
           (tokenize "model" TokenNone) Hne).
  - vm_compute. reflexivity.
  - reflexivity.
  - reflexivity.
  - reflexivity.
  - vm_compute. decided.
Defined.

(** The warmed-up instance returns a result for the two cities. *)
Lemma run_ok_iff_witness :
  ∃ out σ',
    run sigmoid stable_sort_descending cities_ranker "City in Germany"
      [0; 1] None None None None paris_berlin
    = (Ok out, σ').
Proof.
  apply (run_ok_iff _ _ sigmoid stable_sort_descending cities_ranker
           "City in Germany" [0; 1] None None None None paris_berlin).
  - intros fw tk Hm Ht. simpl in Hm, Ht. inversion Hm; subst fw.
    inversion Ht; subst tk. split; [reflexivity|]. vm_compute. decided.
  - right. split_and!; [reflexivity|by eexists|by eexists|by eexists].
Defined.

(** The two cities on an instance that scales, the call given
    [scale_score=False]: Paris, of raw score 5, is left with the scaled
    score all the same. *)
Lemma run_scale_score_false_still_scales_witness :
  scale_score cities_ranker = true
  ∧ run sigmoid stable_sort_descending cities_ranker "City in Germany" [0; 1]
      None (Some false) None None paris_berlin
    = run sigmoid stable_sort_descending cities_ranker "City in Germany"
        [0; 1] None (Some true) None None paris_berlin
  ∧ score_of
      (run sigmoid stable_sort_descending cities_ranker "City in Germany"
         [0; 1] None (Some false) None None paris_berlin).2 0
    = Some (sigmoid 5).
Proof.
  split; [reflexivity|]. split.
  - apply (run_scale_score_false_still_scales _ _ sigmoid
             stable_sort_descending cities_ranker "City in Germany" [0; 1]
             None None None None paris_berlin eq_refl).
  - vm_compute. reflexivity.
Defined.

(** C5. On an instance that stores [score_threshold=6.0], a call given
    [score_threshold=0.0] is the call given none: the stored threshold is
    applied, and Paris, whose score 5 is not below 0.0, is not returned. *)
Theorem score_threshold_zero_override_ignored :
  let r := ranker (length_model "model" TokenNone ∅) 10 false
             (Some 6%Q) [] in
  let call := run sigmoid stable_sort_descending r "City in Germany" [0; 1]
                None None None (Some 0%Q) paris_berlin in
  call.1 = Ok [1]
  ∧ score_of call.2 0 = Some 5%Q
  ∧ (0 <= 5)%Q
  ∧ call = run sigmoid stable_sort_descending r "City in Germany" [0; 1]
             None None None None paris_berlin.
Proof.
  intros r call. split_and!.
  - vm_compute. reflexivity.
  - vm_compute. reflexivity.
  - discriminate.
  - reflexivity.
Qed.

(** The default arguments: no device map, so the constructor returns. *)
Lemma init_outcome_witness :
  given_device_map None ∅ && is_none (@None Any) = false
  ∧ ∃ r, (__init__ resolve_device from_multiple_from_hf
            (Features := list (string * string))
            "cross-encoder/ms-marco-MiniLM-L-6-v2" None TokenNone 10 None
            newline true (Some 1%Q) None None ∅).1
         = Ok r.
Proof.
  assert (H : given_device_map None ∅ && is_none (@None Any) = false)
    by reflexivity.
  split; [exact H|].
  apply (init_outcome _ resolve_device from_multiple_from_hf _
           "cross-encoder/ms-marco-MiniLM-L-6-v2" None TokenNone 10 None
           newline true (Some 1%Q) None None ∅ H).
  split_and!; [reflexivity|lia|by eexists].
Defined.

End Sample.
